(** * StackedBarChart: aggregation, scales and interaction handlers

    A shallow embedding of [src/components/StackedBarChart.tsx] (the chart
    with the quarterly-target overlay) and of its earlier revision without
    the overlay, together with the parts of d3 they call: [d3.group],
    [d3.stack] (default order and offset), [d3.max], [d3.scaleBand],
    [d3.scaleLinear], [d3.scaleOrdinal].

    The d3 functions follow the sources of d3 version 7 (d3-array,
    d3-shape, d3-scale, d3-interpolate).

    JavaScript numbers are modelled as exact rationals ([Qc]); the values
    NaN and the infinities have no counterpart, and rounding is not
    modelled. *)

From Stdlib Require Import List String Ascii Bool Arith ZArith QArith Qcanon Qround Lia
  Sorted Permutation.
Import ListNotations.

Open Scope string_scope.
Open Scope list_scope.
Open Scope Qc_scope.

(** ** Numbers *)

Abbreviation number := Qc.

Definition num (z : Z) : number := Q2Qc (inject_Z z).

Definition frac (n : Z) (d : positive) : number := Q2Qc (n # d).

Definition Qcltb (x y : number) : bool :=
  match x ?= y with Lt => true | _ => false end.

(** [x || 0] on a possibly undefined number: [undefined] and [0] are falsy. *)
Definition or_zero (o : option number) : number :=
  match o with
  | Some v => if Qc_eq_bool v 0 then 0 else v
  | None => 0
  end.

(** [Math.max(a, b)]. *)
Definition Math_max (a b : number) : number :=
  if Qcltb a b then b else a.

(** ** Data model *)

Record DataPoint := mkDataPoint {
  date : string;
  category : string;
  value : number
}.

Record QuarterlyTarget := mkTarget {
  target_date : string;
  target_value : number
}.

(** The built-in sample data and targets of the component state. *)
Definition sampleData : list DataPoint :=
  [ mkDataPoint "2024-01" "A" (num 20);
    mkDataPoint "2024-01" "B" (num 30);
    mkDataPoint "2024-01" "C" (num 15);
    mkDataPoint "2024-02" "A" (num 25);
    mkDataPoint "2024-02" "B" (num 35);
    mkDataPoint "2024-02" "C" (num 20);
    mkDataPoint "2024-03" "A" (num 30);
    mkDataPoint "2024-03" "B" (num 25);
    mkDataPoint "2024-03" "C" (num 25) ].

Definition sampleTargets : list QuarterlyTarget :=
  [ mkTarget "2024-01" (num 50);
    mkTarget "2024-02" (num 60);
    mkTarget "2024-03" (num 70) ].

(** [initialData || sample]: an array, even an empty one, is truthy. *)
Definition initialState (initialData : option (list DataPoint)) : list DataPoint :=
  match initialData with
  | Some d => d
  | None => sampleData
  end.

(** ** Aggregation *)

(** A bucket is one entry [[key, records]] of the grouped map. *)
Definition Bucket : Type := string * list DataPoint.

(** [d3.group]: a map in insertion order; a record joins the group of its
    key when there is one, and opens a new group at the end otherwise. *)
Fixpoint group_push (k : string) (d : DataPoint) (groups : list Bucket) : list Bucket :=
  match groups with
  | [] => [(k, [d])]
  | (k', ds) :: rest =>
      if String.eqb k' k then (k', ds ++ [d]) :: rest
      else (k', ds) :: group_push k d rest
  end.

Definition d3_group (data : list DataPoint) : list Bucket :=
  fold_left (fun groups d => group_push (date d) d groups) data [].

(** [d3.group(data, d => d.date)]. *)
Abbreviation groupedData := d3_group.

(** [new Set(array)] read back with [Array.from]: insertion order, an
    element already present is not added again. *)
Definition set_add (s : list string) (x : string) : list string :=
  if existsb (String.eqb x) s then s else s ++ [x].

Definition js_set (l : list string) : list string :=
  fold_left set_add l [].

Definition categories (data : list DataPoint) : list string :=
  js_set (map category data).

(** [Array.from(groupedData.keys())]. *)
Definition bucketKeys (data : list DataPoint) : list string :=
  map fst (groupedData data).

(** The value accessor given to the stack generator:
    [d[1].find(item => item.category === key)?.value || 0]. *)
Definition stack_value (d : Bucket) (key : string) : number :=
  or_zero (option_map value
             (find (fun item => String.eqb (category item) key) (snd d))).

(** A point of a series: the pair [[d[0], d[1]]] and its [data]. *)
Record SeriesPoint := mkPoint {
  p0 : number;
  p1 : number;
  pdata : Bucket
}.

Record Series := mkSeries {
  key : string;
  points : list SeriesPoint
}.

(** First pass of [d3.stack]: every point is [[0, value(d, key)]]. *)
Definition stackSeries (data : list Bucket) (k : string) : Series :=
  mkSeries k (map (fun d => mkPoint 0 (stack_value d k) d) data).

(** Inner loop of [stackOffsetNone]:
    [s1[j][1] += s1[j][0] = s0[j][1]] (the source tests [s0[j][1]] for NaN
    first, which no number of this model is). *)
Fixpoint offset_points (s0 s1 : list SeriesPoint) : list SeriesPoint :=
  match s0, s1 with
  | a :: s0', b :: s1' =>
      mkPoint (p1 a) (p1 b + p1 a) (pdata b) :: offset_points s0' s1'
  | _, _ => s1
  end.

(** Outer loop of [stackOffsetNone], from the second series on; [s0] is the
    series below, already shifted. *)
Fixpoint offset_from (s0 : list SeriesPoint) (rest : list Series) : list Series :=
  match rest with
  | [] => []
  | s1 :: tl =>
      let pts := offset_points s0 (points s1) in
      mkSeries (key s1) pts :: offset_from pts tl
  end.

Definition stackOffsetNone (series : list Series) : list Series :=
  match series with
  | [] => []
  | s :: rest => s :: offset_from (points s) rest
  end.

Definition d3_stack (keys : list string) (data : list Bucket) : list Series :=
  stackOffsetNone (map (stackSeries data) keys).

Definition stackedData (data : list DataPoint) : list Series :=
  d3_stack (categories data) (groupedData data).

(** ** Exceptions and the drawing monad *)

Inductive JsError :=
| TypeError (msg : string).

Inductive completion (A : Type) :=
| Normal (a : A)
| Throw (e : JsError).

Arguments Normal {A} a.
Arguments Throw {A} e.

(** [array[array.length - 1]]: [undefined] on the empty array. *)
Definition js_last {A} (l : list A) : option A :=
  match l with
  | [] => None
  | _ :: _ => nth_error l (List.length l - 1)
  end.

(** [d3.max(values, valueof)] on an array: [undefined] when it is empty. *)
Definition d3_max_step (max : option number) (v : number) : option number :=
  match max with
  | None => Some v
  | Some m => if Qcltb m v then Some v else max
  end.

Definition d3_max {A} (values : list A) (valueof : A -> number) : option number :=
  fold_left (fun max a => d3_max_step max (valueof a)) values None.

(** [d3.max] on a value that may be [undefined]: [for (... of undefined)]
    raises a TypeError. *)
Definition d3_max_iter {A} (values : option (list A)) (valueof : A -> number)
  : completion (option number) :=
  match values with
  | Some vs => Normal (d3_max vs valueof)
  | None => Throw (TypeError "undefined is not iterable")
  end.

(** ** Scales *)

Record LinearScale := mkLinear {
  lin_domain : number * number;
  lin_range : number * number
}.

(** [normalize(a, b)] of d3-scale: the constant 0.5 when [b - a] is 0, the
    division otherwise. *)
Definition normalize (a b : number) (x : number) : number :=
  let b' := b - a in
  if Qc_eq_bool b' 0 then frac 1 2 else (x - a) / b'.

Definition interpolateNumber (a b : number) (t : number) : number :=
  a * (1 - t) + b * t.

Definition bimap (domain range : number * number) (x : number) : number :=
  let (d0, d1) := domain in
  let (r0, r1) := range in
  if Qcltb d1 d0 then interpolateNumber r1 r0 (normalize d1 d0 x)
  else interpolateNumber r0 r1 (normalize d0 d1 x).

Definition scale_linear (s : LinearScale) (x : number) : number :=
  bimap (lin_domain s) (lin_range s) x.

Record BandScale := mkBand {
  band_domain : list string;
  band_range : number * number;
  band_padding : number
}.

Definition of_nat (n : nat) : number := num (Z.of_nat n).

Definition band_reverse (s : BandScale) : bool :=
  Qcltb (snd (band_range s)) (fst (band_range s)).

Definition band_start0 (s : BandScale) : number :=
  if band_reverse s then snd (band_range s) else fst (band_range s).

Definition band_stop (s : BandScale) : number :=
  if band_reverse s then fst (band_range s) else snd (band_range s).

(** [Math.max(1, n - paddingInner + paddingOuter * 2)], both paddings set
    by [padding]. *)
Definition band_divisor (s : BandScale) : number :=
  let n := of_nat (List.length (band_domain s)) in
  Math_max 1 (n - band_padding s + band_padding s * num 2).

Definition band_step (s : BandScale) : number :=
  (band_stop s - band_start0 s) / band_divisor s.

Definition band_start (s : BandScale) : number :=
  let n := of_nat (List.length (band_domain s)) in
  band_start0 s
  + (band_stop s - band_start0 s - band_step s * (n - band_padding s)) * frac 1 2.

Definition bandwidth (s : BandScale) : number :=
  band_step s * (1 - band_padding s).

Definition band_values (s : BandScale) : list number :=
  let vs := map (fun i => band_start s + band_step s * of_nat i)
                (seq 0 (List.length (band_domain s))) in
  if band_reverse s then rev vs else vs.

Fixpoint index_of (k : string) (l : list string) : option nat :=
  match l with
  | [] => None
  | x :: r => if String.eqb x k then Some O else option_map S (index_of k r)
  end.

(** Applying the band scale: [undefined] on a key outside the domain. *)
Definition scale_band (s : BandScale) (k : string) : option number :=
  match index_of k (band_domain s) with
  | Some i => nth_error (band_values s) (i mod List.length (band_values s))
  | None => None
  end.

Definition schemeCategory10 : list string :=
  [ "#1f77b4"; "#ff7f0e"; "#2ca02c"; "#d62728"; "#9467bd";
    "#8c564b"; "#e377c2"; "#7f7f7f"; "#bcbd22"; "#17becf" ].

(** [d3.scaleOrdinal().domain(cats).range(schemeCategory10)]; a key outside
    the domain takes the next free index. *)
Definition colorScale (cats : list string) (k : string) : string :=
  let domain := js_set cats in
  let i := match index_of k domain with Some i => i | None => List.length domain end in
  nth (i mod List.length schemeCategory10) schemeCategory10 "".

(** ** Drawing *)

(** A template literal: text pieces and interpolated values. *)
Inductive Fragment :=
| Lit (s : string)
| Str (s : string)
| Num (n : number).

Definition Text := list Fragment.

Record Bar := mkBar {
  bar_series : string;
  bar_x : number;
  bar_width : number;
  bar_enter_y : number;
  bar_enter_height : number;
  bar_y : number;
  bar_height : number;
  bar_duration : Z;
  bar_delay : Z;
  bar_datum : SeriesPoint
}.

Inductive DrawCmd :=
| SvgSize (width height : number)
| ClearPrevious (fade : Z)
| AppendPlotGroup (tx ty : number)
| CategoryGroup (k fill : string)
| TargetLine (pts : list (number * number)) (fade : Z)
| TargetLabel (x y : number) (text : Text)
| Rect (b : Bar)
| AxisBottom (ty : number) (sc : BandScale)
| AxisLeft (sc : LinearScale)
| LegendEntry (tx ty : number) (fill label : string).

(** State (what has been drawn so far) and exceptions; an exception keeps
    what was drawn before it. *)
Definition Draw (A : Type) : Type :=
  list DrawCmd -> list DrawCmd * completion A.

Definition ret {A} (a : A) : Draw A := fun drawn => (drawn, Normal a).

Definition bind {A B} (m : Draw A) (k : A -> Draw B) : Draw B :=
  fun drawn =>
    match m drawn with
    | (drawn', Normal a) => k a drawn'
    | (drawn', Throw e) => (drawn', Throw e)
    end.

Definition emit (cs : list DrawCmd) : Draw unit :=
  fun drawn => (drawn ++ cs, Normal tt).

Definition lift {A} (c : completion A) : Draw A := fun drawn => (drawn, c).

Notation "x <- m ;; k" := (bind m (fun x => k))
  (at level 61, m at next level, right associativity).
Notation "m ;;; k" := (bind m (fun _ => k))
  (at level 61, right associativity).

Definition margin_top : number := num 20.
Definition margin_right : number := num 120.
Definition margin_bottom : number := num 30.
Definition margin_left : number := num 40.

Definition innerWidth (width : number) : number := width - margin_left - margin_right.
Definition innerHeight (height : number) : number := height - margin_top - margin_bottom.

Definition xScale (data : list DataPoint) (width : number) : BandScale :=
  mkBand (js_set (bucketKeys data)) (0, innerWidth width) (frac 1 10).

Definition yScale (maxValue height : number) : LinearScale :=
  mkLinear (0, maxValue) (innerHeight height, 0).

Fixpoint indexed {A} (i : nat) (l : list A) : list (nat * A) :=
  match l with
  | [] => []
  | a :: r => (i, a) :: indexed (S i) r
  end.

(** The rectangles of one category group. *)
Definition rects (xs : BandScale) (ys : LinearScale) (height : number) (s : Series)
  : list DrawCmd :=
  map (fun '(i, d) =>
         Rect (mkBar (key s)
                     (or_zero (scale_band xs (fst (pdata d))))
                     (bandwidth xs)
                     (innerHeight height) 0
                     (scale_linear ys (p1 d))
                     (scale_linear ys (p0 d) - scale_linear ys (p1 d))
                     750 (Z.of_nat i * 50) d))
      (indexed 0 (points s)).

Definition categoryGroups (cats : list string) (stacked : list Series) : list DrawCmd :=
  map (fun s => CategoryGroup (key s) (colorScale cats (key s))) stacked.

Definition axes (xs : BandScale) (ys : LinearScale) (height : number) : list DrawCmd :=
  [AxisBottom (innerHeight height) xs; AxisLeft ys].

Definition legend (cats : list string) (width : number) : list DrawCmd :=
  map (fun '(i, c) =>
         LegendEntry (width - margin_right + num 10) (margin_top + of_nat i * num 20)
                     (colorScale cats c) c)
      (indexed 0 cats).

Definition targetPoint (xs : BandScale) (ys : LinearScale) (t : QuarterlyTarget)
  : number * number :=
  (or_zero (scale_band xs (target_date t)) + bandwidth xs / num 2,
   scale_linear ys (target_value t)).

Definition targetLabels (xs : BandScale) (ys : LinearScale) (targets : list QuarterlyTarget)
  : list DrawCmd :=
  map (fun t => TargetLabel (fst (targetPoint xs ys t))
                            (snd (targetPoint xs ys t) - num 5)
                            [Lit "Target: "; Num (target_value t)])
      targets.

(** The value scale of the revision without overlay:
    domain [[0, d3.max(stackedData[stackedData.length - 1], d => d[1]) || 0]]. *)
Definition yScale_v1 (data : list DataPoint) (height : number) : completion LinearScale :=
  match d3_max_iter (option_map points (js_last (stackedData data))) p1 with
  | Normal m => Normal (yScale (or_zero m) height)
  | Throw e => Throw e
  end.

(** [maxValue] of the revision with overlay. *)
Definition maxDataValue (data : list DataPoint) : completion number :=
  match d3_max_iter (option_map points (js_last (stackedData data))) p1 with
  | Normal m => Normal (or_zero m)
  | Throw e => Throw e
  end.

Definition maxTargetValue (targets : list QuarterlyTarget) : number :=
  or_zero (d3_max targets target_value).

Definition maxValue (data : list DataPoint) (targets : list QuarterlyTarget)
  : completion number :=
  match maxDataValue data with
  | Normal m => Normal (Math_max m (maxTargetValue targets))
  | Throw e => Throw e
  end.

Definition yScale_v2 (data : list DataPoint) (targets : list QuarterlyTarget)
    (height : number) : completion LinearScale :=
  match maxValue data targets with
  | Normal m => Normal (yScale m height)
  | Throw e => Throw e
  end.

(** The effect body of the revision without overlay ([svgRef.current] is
    [mounted]). *)
Definition render_v1 (mounted : bool) (data : list DataPoint) (width height : number)
  : Draw unit :=
  if negb mounted then ret tt else
  emit [SvgSize width height] ;;;
  emit [ClearPrevious 300] ;;;
  emit [AppendPlotGroup margin_left margin_top] ;;;
  let cats := categories data in
  let stacked := stackedData data in
  let xs := xScale data width in
  ys <- lift (yScale_v1 data height) ;;
  emit (categoryGroups cats stacked) ;;;
  emit (flat_map (rects xs ys height) stacked) ;;;
  emit (axes xs ys height) ;;;
  emit (legend cats width).

(** The effect body of the revision with the target overlay. *)
Definition render_v2 (mounted : bool) (data : list DataPoint)
    (targets : list QuarterlyTarget) (width height : number) : Draw unit :=
  if negb mounted then ret tt else
  emit [SvgSize width height] ;;;
  emit [ClearPrevious 300] ;;;
  emit [AppendPlotGroup margin_left margin_top] ;;;
  let cats := categories data in
  let stacked := stackedData data in
  ys <- lift (yScale_v2 data targets height) ;;
  let xs := xScale data width in
  emit (categoryGroups cats stacked) ;;;
  emit [TargetLine (map (targetPoint xs ys) targets) 750] ;;;
  emit (targetLabels xs ys targets) ;;;
  emit (flat_map (rects xs ys height) stacked) ;;;
  emit (axes xs ys height) ;;;
  emit (legend cats width).

(** ** Interaction handlers *)

Record Tooltip := mkTooltip {
  tip_x : number;
  tip_y : number;
  tip_width : number;
  tip_height : number;
  tip_text : Text
}.

(** The [mouseover] handler of a rectangle bound to the point [d]. The
    difference [d[1] - d[0]] is exact here; the source takes it on the
    doubles that the stack has added up. *)
Definition mouseover (offsetX offsetY : number) (d : SeriesPoint) : Tooltip :=
  let total := p1 d - p0 d in
  let category := fst (pdata d) in
  mkTooltip (offsetX - num 10) (offsetY - num 10) (num 120) (num 30)
            [Str category; Lit ": "; Num total].

Definition on_mouseover (tips : list Tooltip) (offsetX offsetY : number) (d : SeriesPoint)
  : list Tooltip :=
  tips ++ [mouseover offsetX offsetY d].

(** [svg.selectAll('.tooltip').remove()]. *)
Definition on_mouseout (tips : list Tooltip) : list Tooltip := [].

(** A drawn category group: its datum key and its inline opacity, if set. *)
Record GroupNode := mkGroup {
  group_key : string;
  group_opacity : option string
}.

Definition drawnGroups (stacked : list Series) : list GroupNode :=
  map (fun s => mkGroup (key s) None) stacked.

(** [selection.style('opacity')] on one node: the inline value, else the
    computed one, which is "1" for an element nothing has dimmed. *)
Definition style_opacity (g : GroupNode) : string :=
  match group_opacity g with
  | Some s => if String.eqb s "" then "1" else s
  | None => "1"
  end.

(** The legend [click] handler together with the transition it schedules,
    run to its end before anything else happens; the handler alone is
    [click_start]. Reading the style of an empty selection dereferences
    [null]. *)
Definition legend_click (category : string) (groups : list GroupNode)
  : completion (list GroupNode) :=
  match filter (fun d => String.eqb (group_key d) category) groups with
  | [] => Throw (TypeError "null has no style")
  | node :: _ =>
      let opacity := style_opacity node in
      Normal (map (fun d =>
                     if String.eqb (group_key d) category
                     then mkGroup (group_key d)
                                  (Some (if String.eqb opacity "1" then "0.2" else "1"))
                     else d)
                  groups)
  end.

(** Two clicks in a row on the same legend entry. *)
Definition legend_click_twice (category : string) (groups : list GroupNode)
  : completion (list GroupNode) :=
  match legend_click category groups with
  | Normal groups' => legend_click category groups'
  | Throw e => Throw e
  end.

(** The [onChange] handler of the target input at [index]; the index comes
    from mapping over the same array, so it is in range. *)
Fixpoint setTarget (index : nat) (v : number) (targets : list QuarterlyTarget)
  : list QuarterlyTarget :=
  match targets, index with
  | [], _ => []
  | t :: r, O => mkTarget (target_date t) v :: r
  | t :: r, S i => t :: setTarget i v r
  end.

(** ** Vocabulary of the properties *)

Definition height (p : SeriesPoint) : number := p1 p - p0 p.

Definition sum (l : list number) : number := fold_right Qcplus 0 l.

(** The records of the input that fall in bucket [k]. *)
Definition bucket_records (data : list DataPoint) (k : string) : list DataPoint :=
  filter (fun d => String.eqb (date d) k) data.



(** The interval of the pair (bucket [k], category [c]). *)
Definition segment (stacked : list Series) (k c : string) : option SeriesPoint :=
  match find (fun s => String.eqb (key s) c) stacked with
  | Some s => find (fun p => String.eqb (fst (pdata p)) k) (points s)
  | None => None
  end.

(** No bucket holds two records of the same category. *)
Definition unique_pairs (data : list DataPoint) : Prop :=
  NoDup (map (fun d => (date d, category d)) data).

(** Position of the first occurrence of [x] in [l]. *)
Fixpoint first_index (x : string) (l : list string) : nat :=
  match l with
  | [] => O
  | y :: r => if String.eqb y x then O else S (first_index x r)
  end.

(** [output] lists the distinct elements of [input] in the order of their
    first appearance: the first occurrences go strictly upward. *)
Definition first_appearance_order (input output : list string) : Prop :=
  NoDup output
  /\ (forall x, In x output <-> In x input)
  /\ StronglySorted lt (map (fun x => first_index x input) output).

(** [m] is the greatest element of [l]. *)
Definition is_max (m : number) (l : list number) : Prop :=
  In m l /\ forall x, In x l -> x <= m.

(** The top of the stack of every bucket: the upper end of the interval of
    the last category. *)
Definition stack_tops (data : list DataPoint) : list number :=
  match js_last (stackedData data) with
  | Some s => map p1 (points s)
  | None => []
  end.


Definition bars (drawn : list DrawCmd) : list Bar :=
  flat_map (fun c => match c with Rect b => [b] | _ => [] end) drawn.

Definition scenarioA : list DataPoint :=
  [ mkDataPoint "2024-01" "A" (num 20);
    mkDataPoint "2024-01" "B" (num 30) ].

(** Closed form of the stack: the series of [keys] over [groups], stacked
    above the level [g]. *)
Fixpoint stack_from (groups : list Bucket) (g : Bucket -> number) (keys : list string)
  : list Series :=
  match keys with
  | [] => []
  | c :: rest =>
      mkSeries c (map (fun b => mkPoint (g b) (stack_value b c + g b) b) groups)
      :: stack_from groups (fun b => stack_value b c + g b) rest
  end.



(** Two records of the same category in one bucket. *)
Definition dupData : list DataPoint :=
  [ mkDataPoint "2024-01" "A" (num 20);
    mkDataPoint "2024-01" "A" (num 30) ].


(** A category missing from a bucket. *)
Definition sparseData : list DataPoint :=
  [ mkDataPoint "2024-01" "A" (num 20);
    mkDataPoint "2024-02" "B" (num 30) ].

(** One record of value zero and one target of value zero. *)
Definition zeroData : list DataPoint :=
  [ mkDataPoint "2024-01" "A" (num 0) ].

Definition zeroTargets : list QuarterlyTarget :=
  [ mkTarget "2024-01" (num 0) ].


(** What a pass has drawn when the exception of an empty stack is raised. *)
Definition preamble (width height : number) : list DrawCmd :=
  [SvgSize width height; ClearPrevious 300; AppendPlotGroup margin_left margin_top].

(** ** The legend click and its transition *)

(** A category group while transitions run: its key, its inline opacity and
    the target of the opacity transition under way on it, if there is one. *)
Record LiveGroup := mkLive {
  live_key : string;
  live_opacity : option string;
  live_target : option string
}.

Definition liveGroups (stacked : list Series) : list LiveGroup :=
  map (fun s => mkLive (key s) None None) stacked.

Definition live_style (g : LiveGroup) : string :=
  style_opacity (mkGroup (live_key g) (live_opacity g)).

(** [categoryGroups.filter(d => d.key === category)], then a change made to
    every node of the selection. *)
Definition on_category (category : string) (f : LiveGroup -> LiveGroup)
    (groups : list LiveGroup) : list LiveGroup :=
  map (fun d => if String.eqb (live_key d) category then f d else d) groups.

(** A transition to [target] scheduled on a node; it replaces the one
    scheduled before. *)
Definition schedule (target : string) (d : LiveGroup) : LiveGroup :=
  mkLive (live_key d) (live_opacity d) (Some target).

(** The legend [click] handler itself: it reads the style at once and only
    schedules, with [.transition().style('opacity', ...)], the write of the
    new opacity. *)
Definition click_start (category : string) (groups : list LiveGroup)
  : completion (list LiveGroup) :=
  match filter (fun d => String.eqb (live_key d) category) groups with
  | [] => Throw (TypeError "null has no style")
  | node :: _ =>
      let opacity := live_style node in
      Normal (on_category category
                (schedule (if String.eqb opacity "1" then "0.2" else "1"))
                groups)
  end.

(** A frame inside the transition of a node: it shows the interpolated
    opacity [shown]; a transition that starts at its target has no tween
    and changes nothing. *)
Definition tick_node (shown : string) (d : LiveGroup) : LiveGroup :=
  match live_target d with
  | Some t => if String.eqb (live_style d) t then d
              else mkLive (live_key d) (Some shown) (Some t)
  | None => d
  end.

Definition transition_tick (category shown : string) (groups : list LiveGroup)
  : list LiveGroup :=
  on_category category (tick_node shown) groups.

(** The end of the transition of a node: the style is the target. *)
Definition end_node (d : LiveGroup) : LiveGroup :=
  match live_target d with
  | Some t => if String.eqb (live_style d) t
              then mkLive (live_key d) (live_opacity d) None
              else mkLive (live_key d) (Some t) None
  | None => d
  end.

Definition transition_end (category : string) (groups : list LiveGroup)
  : list LiveGroup :=
  on_category category end_node groups.

(** What happens to the legend, in order: a click on an entry, a frame of
    the transition of a category with the opacity it shows, the end of the
    transition of a category. *)
Inductive LegendEvent :=
| Click (category : string)
| Tick (category shown : string)
| Finish (category : string).

Definition legend_step (ev : LegendEvent) (groups : list LiveGroup)
  : completion (list LiveGroup) :=
  match ev with
  | Click c => click_start c groups
  | Tick c shown => Normal (transition_tick c shown groups)
  | Finish c => Normal (transition_end c groups)
  end.

Fixpoint legend_run (events : list LegendEvent) (groups : list LiveGroup)
  : completion (list LiveGroup) :=
  match events with
  | [] => Normal groups
  | ev :: rest =>
      match legend_step ev groups with
      | Normal groups' => legend_run rest groups'
      | Throw e => Throw e
      end
  end.

(** What a sequence of events makes of one node of the category they are
    about, the click reading the style of that node. *)
Definition node_step (ev : LegendEvent) (d : LiveGroup) : LiveGroup :=
  match ev with
  | Click _ => schedule (if String.eqb (live_style d) "1" then "0.2" else "1") d
  | Tick _ shown => tick_node shown d
  | Finish _ => end_node d
  end.

Definition node_run (events : list LegendEvent) (d : LiveGroup) : LiveGroup :=
  fold_left (fun d ev => node_step ev d) events d.

Definition event_category (ev : LegendEvent) : string :=
  match ev with
  | Click c => c
  | Tick c _ => c
  | Finish c => c
  end.

(** A drawn group on which no transition runs. *)
Definition at_rest (g : GroupNode) : LiveGroup :=
  mkLive (group_key g) (group_opacity g) None.

(** Two clicks on the legend entry of [category], with [between] happening
    between them and [after] between the second click and the end of its
    transition, give every group back the opacity it showed before. *)
Definition double_click_restores (category : string) (between after : list LegendEvent)
    (groups : list LiveGroup) : Prop :=
  exists groups',
    legend_run ([Click category] ++ between ++ [Click category] ++ after
                ++ [Finish category]) groups
    = Normal groups'
    /\ map live_style groups' = map live_style groups.

(** The sample chart once category B has been dimmed by a click whose
    transition has ended. *)
Definition dimmedSample : list LiveGroup :=
  on_category "B" (fun d => mkLive (live_key d) (Some "0.2") None)
              (liveGroups (stackedData sampleData)).

(** ** The Randomize button *)

(** [Math.floor]. *)
Definition Math_floor (x : number) : number := num (Qfloor x).

(** The click handler of the button: every record keeps its date and its
    category and takes the value [Math.floor(Math.random() * 50) + 10];
    [random i] is the draw made for the record at index [i]. *)
Definition randomize (random : nat -> number) (data : list DataPoint) : list DataPoint :=
  map (fun '(i, d) =>
         mkDataPoint (date d) (category d) (Math_floor (random i * num 50) + num 10))
      (indexed 0 data).

(** ** Reading back what a pass has drawn *)

(** The category groups, each with its key and fill. *)
Definition drawnFills (drawn : list DrawCmd) : list (string * string) :=
  flat_map (fun c => match c with CategoryGroup k fill => [(k, fill)] | _ => [] end) drawn.

(** The legend entries, each with its label and the fill of its swatch. *)
Definition drawnLegend (drawn : list DrawCmd) : list (string * string) :=
  flat_map (fun c => match c with LegendEntry _ _ fill label => [(label, fill)] | _ => [] end)
           drawn.

(** The points of the target line. *)
Definition drawnTargetPoints (drawn : list DrawCmd) : list (number * number) :=
  flat_map (fun c => match c with TargetLine pts _ => pts | _ => [] end) drawn.

(** ** Several clicks on the legend *)

(** The legend entries of [cs] clicked one after the other, every
    transition ended before the next click. *)
Fixpoint legend_clicks (cs : list string) (groups : list GroupNode)
  : completion (list GroupNode) :=
  match cs with
  | [] => Normal groups
  | c :: rest =>
      match legend_click c groups with
      | Normal groups' => legend_clicks rest groups'
      | Throw e => Throw e
      end
  end.

(** The labels of the targets: position and text. *)
Definition drawnTargetLabels (drawn : list DrawCmd) : list (number * number * Text) :=
  flat_map (fun c => match c with TargetLabel x y text => [(x, y, text)] | _ => [] end)
           drawn.

(** ** Values that doubles hold exactly *)

(** Every value is a whole number and, in every bucket, the magnitudes of
    the values add up to at most 2^53: the sums that the stack takes and
    the difference that the tooltip takes are then whole numbers of
    magnitude at most 2^53, which the doubles of the source hold and add
    without rounding, as the rationals of this model do. *)
Definition exact_in_doubles (data : list DataPoint) : Prop :=
  (forall d, In d data -> value d = num (Qfloor (value d)))
  /\ forall k,
       (fold_right Z.add 0 (map (fun d => Z.abs (Qfloor (value d)))
                                (bucket_records data k)) <= 2 ^ 53)%Z.

(** * Properties *)

(** ** Numbers *)

Section Numbers.

Lemma Qcltb_lt (x y : number) : Qcltb x y = true <-> x < y.
Proof.
  unfold Qcltb, Qclt, Qccompare. rewrite Qlt_alt.
  destruct (x ?= y)%Q; split; congruence.
Qed.

Lemma Qcltb_ge (x y : number) : Qcltb x y = false <-> y <= x.
Proof.
  unfold Qcltb, Qcle, Qccompare.
  rewrite Qle_alt, <- (Qcompare_antisym x y).
  destruct (x ?= y)%Q; simpl; split; congruence.
Qed.

Lemma or_zero_some (v : number) : or_zero (Some v) = v.
Proof.
  unfold or_zero, Qc_eq_bool. destruct (Qc_eq_dec v 0); congruence.
Qed.

Lemma Math_max_ub_l (a b : number) : a <= Math_max a b.
Proof.
  unfold Math_max. destruct (Qcltb a b) eqn:E.
  - apply Qclt_le_weak, Qcltb_lt, E.
  - apply Qcle_refl.
Qed.

Lemma Math_max_ub_r (a b : number) : b <= Math_max a b.
Proof.
  unfold Math_max. destruct (Qcltb a b) eqn:E.
  - apply Qcle_refl.
  - apply Qcltb_ge, E.
Qed.

Lemma band_divisor_nonzero (s : BandScale) : band_divisor s <> 0.
Proof.
unfold band_divisor. intros E.
pose proof (Math_max_ub_l 1 (of_nat (List.length (band_domain s)) - band_padding s
                             + band_padding s * num 2)) as H.
rewrite E in H. now apply H.
Qed.


End Numbers.

(** ** Sets and groups keep the order of first appearance *)

Section FirstAppearance.

Lemma existsb_eqb_In (x : string) (s : list string) :
  existsb (String.eqb x) s = true <-> In x s.
Proof.
  rewrite existsb_exists. split.
  - intros [y [Hy E]]. apply String.eqb_eq in E. now subst.
  - intros H. exists x. split; [assumption | apply String.eqb_refl].
Qed.

Lemma js_set_snoc (l : list string) (x : string) :
  js_set (l ++ [x]) = set_add (js_set l) x.
Proof. unfold js_set. now rewrite fold_left_app. Qed.

Lemma set_add_In (s : list string) (x y : string) :
  In y (set_add s x) <-> In y s \/ y = x.
Proof.
  unfold set_add. destruct (existsb (String.eqb x) s) eqn:E.
  - apply existsb_eqb_In in E. split; [auto | intros [H | ->]; assumption].
  - rewrite in_app_iff. simpl. intuition.
Qed.

Lemma js_set_In (l : list string) (x : string) : In x (js_set l) <-> In x l.
Proof.
  induction l as [|a l IH] using rev_ind.
  - reflexivity.
  - rewrite js_set_snoc, set_add_In, in_app_iff, IH. simpl. intuition.
Qed.

Lemma NoDup_snoc {A} (l : list A) (x : A) :
  NoDup l -> ~ In x l -> NoDup (l ++ [x]).
Proof.
  intros Hl Hx. apply NoDup_rev in Hl. rewrite <- (rev_involutive (l ++ [x])).
  apply NoDup_rev. rewrite rev_app_distr. simpl. constructor.
  - now rewrite <- in_rev.
  - assumption.
Qed.

Lemma set_add_NoDup (s : list string) (x : string) :
  NoDup s -> NoDup (set_add s x).
Proof.
  intros H. unfold set_add. destruct (existsb (String.eqb x) s) eqn:E.
  - assumption.
  - apply NoDup_snoc; [assumption |].
    intros Hin. apply existsb_eqb_In in Hin. congruence.
Qed.

Lemma js_set_NoDup (l : list string) : NoDup (js_set l).
Proof.
  induction l as [|a l IH] using rev_ind.
  - constructor.
  - rewrite js_set_snoc. now apply set_add_NoDup.
Qed.

(** A set built from a list without repetition is that list. *)
Lemma js_set_id_gen (l acc : list string) :
  NoDup (acc ++ l) -> fold_left set_add l acc = acc ++ l.
Proof.
  revert acc. induction l as [|a l IH]; intros acc H; simpl.
  - now rewrite app_nil_r.
  - assert (Ha : ~ In a acc).
    { apply NoDup_remove_2 in H. intros Hin. apply H.
      apply in_or_app. now left. }
    unfold set_add at 2. destruct (existsb (String.eqb a) acc) eqn:E.
    + apply existsb_eqb_In in E. contradiction.
    + rewrite IH; rewrite <- app_assoc; simpl; trivial.
Qed.

Lemma js_set_id (l : list string) : NoDup l -> js_set l = l.
Proof. intros H. unfold js_set. now rewrite js_set_id_gen. Qed.

Lemma first_index_app_l (x : string) (l l' : list string) :
  In x l ->
  first_index x (l ++ l') = first_index x l /\ (first_index x l < List.length l)%nat.
Proof.
  induction l as [|a l IH]; simpl; [tauto |].
  intros [-> | H].
  - rewrite String.eqb_refl. split; [reflexivity | lia].
  - destruct (String.eqb a x); [split; [reflexivity | lia] |].
    destruct (IH H) as [E L]. rewrite E. split; [reflexivity | lia].
Qed.

Lemma first_index_app_r (x : string) (l l' : list string) :
  ~ In x l ->
  first_index x (l ++ l') = (List.length l + first_index x l')%nat.
Proof.
  induction l as [|a l IH]; simpl; [reflexivity |].
  intros H. destruct (String.eqb a x) eqn:E.
  - apply String.eqb_eq in E. tauto.
  - rewrite IH; tauto.
Qed.

Lemma StronglySorted_snoc (l : list nat) (n : nat) :
  StronglySorted lt l -> (forall m, In m l -> (m < n)%nat) ->
  StronglySorted lt (l ++ [n]).
Proof.
  induction 1 as [|a l Hl IH Ha]; intros Hn; simpl.
  - repeat constructor.
  - constructor.
    + apply IH. intros m Hm. apply Hn. now right.
    + apply Forall_app. split; [assumption |].
      constructor; [apply Hn; now left | constructor].
Qed.

Lemma js_set_sorted (l : list string) :
  StronglySorted lt (map (fun x => first_index x l) (js_set l)).
Proof.
  induction l as [|a l IH] using rev_ind.
  - constructor.
  - rewrite js_set_snoc.
    assert (Hold : map (fun x => first_index x (l ++ [a])) (js_set l)
                   = map (fun x => first_index x l) (js_set l)).
    { apply map_ext_in. intros x Hx. apply (proj1 (js_set_In l x)) in Hx.
      apply (first_index_app_l x l [a] Hx). }
    unfold set_add. destruct (existsb (String.eqb a) (js_set l)) eqn:E.
    + now rewrite Hold.
    + rewrite map_app, Hold. simpl. apply StronglySorted_snoc; [assumption |].
      assert (Ha : ~ In a l).
      { intros Hin. apply (proj2 (js_set_In l a)) in Hin.
        apply (proj2 (existsb_eqb_In a (js_set l))) in Hin. congruence. }
      rewrite (first_index_app_r _ _ _ Ha). simpl. rewrite String.eqb_refl.
      intros m Hm. apply in_map_iff in Hm. destruct Hm as [x [<- Hx]].
      apply (proj1 (js_set_In l x)) in Hx.
      destruct (first_index_app_l x l [] Hx) as [_ L]. lia.
Qed.

Lemma js_set_first_appearance (l : list string) :
  first_appearance_order l (js_set l).
Proof.
  split; [apply js_set_NoDup |].
  split; [intros x; apply js_set_In | apply js_set_sorted].
Qed.

(** The keys of the grouped map are the set of the dates. *)
Lemma group_push_keys (k : string) (d : DataPoint) (groups : list Bucket) :
  map fst (group_push k d groups) = set_add (map fst groups) k.
Proof.
  unfold set_add. induction groups as [|[k' ds] rest IH]; simpl; [reflexivity |].
  rewrite (String.eqb_sym k k'). destruct (String.eqb k' k); simpl; [reflexivity |].
  rewrite IH. now destruct (existsb (String.eqb k) (map fst rest)).
Qed.

Lemma d3_group_snoc (data : list DataPoint) (d : DataPoint) :
  d3_group (data ++ [d]) = group_push (date d) d (d3_group data).
Proof. unfold d3_group. now rewrite fold_left_app. Qed.

Lemma bucketKeys_js_set (data : list DataPoint) :
  bucketKeys data = js_set (map date data).
Proof.
  unfold bucketKeys. induction data as [|d data IH] using rev_ind.
  - reflexivity.
  - rewrite d3_group_snoc, group_push_keys, IH, map_app. simpl.
    now rewrite js_set_snoc.
Qed.

End FirstAppearance.

(** ** The grouped map holds, per key, the records of that key *)

Section Grouping.

Lemma group_push_map (k : string) (d : DataPoint)
    (f : string -> list DataPoint) (keys : list string) :
  NoDup keys ->
  group_push k d (map (fun k' => (k', f k')) keys)
  = map (fun k' => (k', if String.eqb k' k then f k' ++ [d] else f k')) keys
    ++ (if existsb (String.eqb k) keys then [] else [(k, [d])]).
Proof.
  induction 1 as [|k' keys Hk' Hnd IH]; simpl; [reflexivity |].
  rewrite (String.eqb_sym k k'). destruct (String.eqb k' k) eqn:E; simpl.
  - apply String.eqb_eq in E. subst k'. rewrite app_nil_r. f_equal.
    apply map_ext_in. intros k'' Hin.
    destruct (String.eqb k'' k) eqn:E'; [| reflexivity].
    apply String.eqb_eq in E'. subst. contradiction.
  - now rewrite IH.
Qed.

Lemma bucket_records_snoc (data : list DataPoint) (d : DataPoint) (k : string) :
  bucket_records (data ++ [d]) k
  = if String.eqb k (date d) then bucket_records data k ++ [d]
    else bucket_records data k.
Proof.
  unfold bucket_records. rewrite filter_app. simpl.
  rewrite (String.eqb_sym k (date d)).
  destruct (String.eqb (date d) k); [reflexivity | apply app_nil_r].
Qed.

Lemma bucket_records_absent (data : list DataPoint) (k : string) :
  ~ In k (map date data) -> bucket_records data k = [].
Proof.
  unfold bucket_records. induction data as [|d data IH]; simpl; [reflexivity |].
  intros H. destruct (String.eqb (date d) k) eqn:E.
  - apply String.eqb_eq in E. tauto.
  - apply IH. tauto.
Qed.

Theorem d3_group_spec (data : list DataPoint) :
  d3_group data = map (fun k => (k, bucket_records data k)) (bucketKeys data).
Proof.
  induction data as [|d data IH] using rev_ind; [reflexivity |].
  rewrite d3_group_snoc, IH.
  rewrite group_push_map
    by (rewrite bucketKeys_js_set; apply js_set_NoDup).
  rewrite !bucketKeys_js_set, map_app. simpl. rewrite js_set_snoc.
  unfold set_add.
  assert (Hmap : map (fun k' => (k', if String.eqb k' (date d)
                                     then bucket_records data k' ++ [d]
                                     else bucket_records data k'))
                     (js_set (map date data))
                 = map (fun k => (k, bucket_records (data ++ [d]) k))
                     (js_set (map date data))).
  { apply map_ext. intros k. now rewrite bucket_records_snoc. }
  rewrite Hmap.
  destruct (existsb (String.eqb (date d)) (js_set (map date data))) eqn:E.
  - apply app_nil_r.
  - rewrite map_app. simpl. do 2 f_equal.
    rewrite bucket_records_snoc, String.eqb_refl.
    rewrite bucket_records_absent; [reflexivity |].
    intros Hin. apply (proj2 (js_set_In _ _)) in Hin.
    apply (proj2 (existsb_eqb_In _ _)) in Hin. congruence.
Qed.

Lemma d3_group_NoDup (data : list DataPoint) : NoDup (map fst (d3_group data)).
Proof.
  change (NoDup (bucketKeys data)).
  rewrite bucketKeys_js_set. apply js_set_NoDup.
Qed.

Lemma d3_group_In (data : list DataPoint) (b : Bucket) :
  In b (d3_group data) <->
  In (fst b) (map date data) /\ snd b = bucket_records data (fst b).
Proof.
  rewrite d3_group_spec, bucketKeys_js_set. split.
  - intros H. apply in_map_iff in H. destruct H as [k [<- Hk]]. simpl.
    split; [now apply js_set_In | reflexivity].
  - intros [Hk E]. apply in_map_iff. exists (fst b). split.
    + rewrite <- E. now destruct b.
    + now apply js_set_In.
Qed.

Lemma bucket_records_In (data : list DataPoint) (k : string) (r : DataPoint) :
  In r (bucket_records data k) <-> In r data /\ date r = k.
Proof.
  unfold bucket_records. rewrite filter_In. now rewrite String.eqb_eq.
Qed.

End Grouping.

(** ** Closed form of the stack *)

Section Stacking.

Variable groups : list Bucket.

Lemma offset_points_map (F G : Bucket -> SeriesPoint) (l : list Bucket) :
  offset_points (map F l) (map G l)
  = map (fun b => mkPoint (p1 (F b)) (p1 (G b) + p1 (F b)) (pdata (G b))) l.
Proof.
  induction l as [|b l IH]; simpl; [reflexivity | now rewrite IH].
Qed.

Lemma offset_from_spec (keys : list string) (lo g : Bucket -> number) :
  offset_from (map (fun b => mkPoint (lo b) (g b) b) groups)
              (map (stackSeries groups) keys)
  = stack_from groups g keys.
Proof.
  revert lo g. induction keys as [|c keys IH]; intros lo g; simpl; [reflexivity |].
  rewrite offset_points_map. simpl. f_equal. apply IH.
Qed.

Theorem d3_stack_spec (keys : list string) :
  d3_stack keys groups = stack_from groups (fun _ => 0) keys.
Proof.
  unfold d3_stack. destruct keys as [|c keys]; simpl; [reflexivity |].
  unfold stackSeries at 1 2.
  assert (E : map (fun d => mkPoint 0 (stack_value d c) d) groups
              = map (fun b => mkPoint 0 (stack_value b c + 0) b) groups).
  { apply map_ext. intros b. f_equal. ring. }
  rewrite E, offset_from_spec. reflexivity.
Qed.

Lemma stack_from_keys (g : Bucket -> number) (keys : list string) :
  map key (stack_from groups g keys) = keys.
Proof.
  revert g. induction keys as [|c keys IH]; intros g; simpl;
    [reflexivity | now rewrite IH].
Qed.

Lemma stack_from_data (g : Bucket -> number) (keys : list string) (s : Series) :
  In s (stack_from groups g keys) -> map pdata (points s) = groups.
Proof.
  revert g. induction keys as [|c keys IH]; intros g; simpl; [tauto |].
  intros [<- | H]; [| eauto].
  simpl. rewrite map_map. simpl. apply map_id.
Qed.

Lemma filter_bucket_none (F G : Bucket -> number) (k : string) (l : list Bucket) :
  ~ In k (map fst l) ->
  filter (fun p => String.eqb (fst (pdata p)) k)
         (map (fun b => mkPoint (F b) (G b) b) l)
  = [].
Proof.
  induction l as [|a l IH]; simpl; [reflexivity |].
  intros H. destruct (String.eqb (fst a) k) eqn:E.
  - apply String.eqb_eq in E. tauto.
  - apply IH. tauto.
Qed.

Hypothesis groups_NoDup : NoDup (map fst groups).

Lemma filter_bucket (F G : Bucket -> number) (b : Bucket) :
  In b groups ->
  filter (fun p => String.eqb (fst (pdata p)) (fst b))
         (map (fun b => mkPoint (F b) (G b) b) groups)
  = [mkPoint (F b) (G b) b].
Proof.
  revert groups_NoDup. clear. induction groups as [|a l IH]; simpl; [tauto |].
  intros Hnd Hin. inversion Hnd as [|? ? Ha Hl]; subst.
  destruct (String.eqb (fst a) (fst b)) eqn:E.
  - apply String.eqb_eq in E. destruct Hin as [-> | Hin].
    + f_equal. apply filter_bucket_none. assumption.
    + exfalso. apply Ha. rewrite E. now apply in_map.
  - destruct Hin as [-> | Hin].
    + rewrite String.eqb_refl in E. discriminate.
    + now apply IH.
Qed.

Lemma find_bucket (F G : Bucket -> number) (b : Bucket) :
  In b groups ->
  find (fun p => String.eqb (fst (pdata p)) (fst b))
       (map (fun b => mkPoint (F b) (G b) b) groups)
  = Some (mkPoint (F b) (G b) b).
Proof.
  intros Hin. pose proof (filter_bucket F G b Hin) as H.
  revert H. generalize (map (fun b => mkPoint (F b) (G b) b) groups).
  intros l. induction l as [|p l IH]; simpl; [discriminate |].
  destruct (String.eqb (fst (pdata p)) (fst b)); [congruence | exact IH].
Qed.


(** The interval of one (bucket, category) pair. *)
Lemma segment_stack_from (g : Bucket -> number) (keys : list string)
    (b : Bucket) (c : string) :
  In b groups -> In c keys ->
  exists p, segment (stack_from groups g keys) (fst b) c = Some p
            /\ pdata p = b /\ height p = stack_value b c.
Proof.
  intros Hb. revert g. induction keys as [|c0 keys IH]; intros g Hc; [contradiction |].
  unfold segment in *. simpl. destruct (String.eqb c0 c) eqn:E.
  - apply String.eqb_eq in E. subst c0. simpl.
    rewrite find_bucket by assumption. eexists. split; [reflexivity |].
    split; [reflexivity |]. unfold height. simpl. ring.
  - destruct Hc as [-> | Hc]; [rewrite String.eqb_refl in E; discriminate |].
    now apply IH.
Qed.

End Stacking.

Section Columns.

Variable b : Bucket.


Lemma js_last_cons {A} (a a' : A) (l : list A) :
  js_last (a :: a' :: l) = js_last (a' :: l).
Proof. unfold js_last. simpl. now rewrite Nat.sub_0_r. Qed.


(** Summing the accessor over the categories counts every record of the
    bucket once, when no category repeats in the bucket. *)
Lemma stack_value_absent (c : string) :
  ~ In c (map category (snd b)) -> stack_value b c = 0.
Proof.
  intros H. unfold stack_value.
  destruct (find (fun item => String.eqb (category item) c) (snd b)) as [r|] eqn:E;
    [| reflexivity].
  apply find_some in E. destruct E as [Hin E]. apply String.eqb_eq in E.
  exfalso. apply H. rewrite <- E. now apply in_map.
Qed.

End Columns.

Section BucketSum.






End BucketSum.

(** ** The aggregation as a whole *)

Section Aggregation.

Variable data : list DataPoint.

Lemma stackedData_spec :
  stackedData data = stack_from (d3_group data) (fun _ => 0) (categories data).
Proof. apply d3_stack_spec. Qed.

Lemma bucket_In (k : string) :
  In k (bucketKeys data) -> In (k, bucket_records data k) (d3_group data).
Proof.
  intros H. rewrite d3_group_spec.
  apply (in_map (fun k => (k, bucket_records data k))), H.
Qed.

Lemma categories_In (c : string) :
  In c (categories data) <-> exists r, In r data /\ category r = c.
Proof.
  unfold categories. rewrite js_set_In, in_map_iff.
  split; intros [r [H1 H2]]; exists r; tauto.
Qed.

Lemma bucketKeys_In (k : string) :
  In k (bucketKeys data) <-> exists r, In r data /\ date r = k.
Proof.
  rewrite bucketKeys_js_set, js_set_In, in_map_iff.
  split; intros [r [H1 H2]]; exists r; tauto.
Qed.

Lemma unique_pairs_bucket (k : string) :
  unique_pairs data -> NoDup (map category (bucket_records data k)).
Proof.
  unfold unique_pairs, bucket_records. clear.
  induction data as [|d l IH]; simpl; intros H; [constructor |].
  inversion H as [|? ? Hd Hl]; subst.
  destruct (String.eqb (date d) k) eqn:E; [| now apply IH].
  apply String.eqb_eq in E. simpl. constructor; [| now apply IH].
  intros Hin. apply in_map_iff in Hin. destruct Hin as [r [Hc Hr]].
  apply filter_In in Hr. destruct Hr as [Hr Hk]. apply String.eqb_eq in Hk.
  apply Hd. apply in_map_iff. exists r. split; [| assumption].
  now rewrite Hc, Hk, E.
Qed.

Lemma find_filter {A} (p q : A -> bool) (l : list A) :
  find p (filter q l) = find (fun x => q x && p x) l.
Proof.
  induction l as [|a l IH]; simpl; [reflexivity |].
  destruct (q a); simpl; [now rewrite IH | exact IH].
Qed.

End Aggregation.

Lemma categories_nonempty (data : list DataPoint) :
  data <> [] -> categories data <> [].
Proof.
  destruct data as [|d l]; [congruence |]. intros _ H.
  assert (Hin : In (category d) (categories (d :: l))).
  { apply categories_In. exists d. split; [now left | reflexivity]. }
  rewrite H in Hin. contradiction.
Qed.

Lemma bucketKeys_nonempty (data : list DataPoint) :
  data <> [] -> bucketKeys data <> [].
Proof.
  destruct data as [|d l]; [congruence |]. intros _ H.
  assert (Hin : In (date d) (bucketKeys (d :: l))).
  { apply bucketKeys_In. exists d. split; [now left | reflexivity]. }
  rewrite H in Hin. contradiction.
Qed.




(** C3. Order stability: the categories derived by the aggregation are the
    distinct category values of the input in the order of their first
    appearance, and the bucket keys are the distinct dates of the input in
    the order of their first appearance; the series follow the category
    order, the points of every series and the domain of the band scale
    follow the bucket order. *)
Theorem order_stability (data : list DataPoint) :
  first_appearance_order (map category data) (categories data)
  /\ first_appearance_order (map date data) (bucketKeys data)
  /\ map key (stackedData data) = categories data
  /\ (forall s, In s (stackedData data) ->
        map (fun p => fst (pdata p)) (points s) = bucketKeys data)
  /\ (forall width, band_domain (xScale data width) = bucketKeys data).
Proof.
  split; [apply js_set_first_appearance |].
  split; [rewrite bucketKeys_js_set; apply js_set_first_appearance |].
  split; [rewrite stackedData_spec; apply stack_from_keys |].
  split.
  - intros s Hs. rewrite stackedData_spec in Hs.
    apply stack_from_data in Hs. unfold bucketKeys.
    now rewrite <- Hs, map_map.
  - intros width. simpl. apply js_set_id.
    rewrite bucketKeys_js_set. apply js_set_NoDup.
Qed.

(** C9. Missing-pair default: if a bucket holds no record of a category of the
    derived category set, the accessor gives that (bucket, category) pair
    the value 0, and the stack has an interval of height 0 for the pair: the
    lookup that fails is not an error. *)
Theorem missing_pair_default (data : list DataPoint) (b : Bucket) (c : string) :
  In b (d3_group data) ->
  In c (categories data) ->
  (forall r, In r (snd b) -> category r <> c) ->
  stack_value b c = 0
  /\ exists p, segment (stackedData data) (fst b) c = Some p
               /\ pdata p = b /\ height p = 0.
Proof.
  intros Hb Hc Hmiss.
  assert (Hv : stack_value b c = 0).
  { apply stack_value_absent. intros Hin. apply in_map_iff in Hin.
    destruct Hin as [r [E Hr]]. exact (Hmiss r Hr E). }
  split; [exact Hv |].
  rewrite stackedData_spec.
  destruct (segment_stack_from (d3_group data) (d3_group_NoDup data)
              (fun _ => 0) (categories data) b c Hb Hc) as [p [Hp [Hd Hh]]].
  exists p. rewrite Hh, Hv. auto.
Qed.

Lemma missing_pair_default_witness :
  In ("2024-01", [mkDataPoint "2024-01" "A" (num 20)]) (d3_group sparseData)
  /\ In "B" (categories sparseData)
  /\ stack_value ("2024-01", [mkDataPoint "2024-01" "A" (num 20)]) "B" = 0
  /\ exists p, segment (stackedData sparseData) "2024-01" "B" = Some p
               /\ pdata p = ("2024-01", [mkDataPoint "2024-01" "A" (num 20)])
               /\ height p = 0.
Proof.
  assert (Hb : In ("2024-01", [mkDataPoint "2024-01" "A" (num 20)])
                  (d3_group sparseData)) by (vm_compute; tauto).
  assert (Hc : In "B" (categories sparseData)) by (vm_compute; tauto).
  split; [exact Hb |]. split; [exact Hc |].
  apply (missing_pair_default sparseData _ "B" Hb Hc).
  simpl. intros r [<- | []]. discriminate.
Defined.

(** C10. Duplicate records: the interval of a (bucket, category) pair has the
    value of the first record of the input with that date and category as
    its height; records of the same pair further on contribute nothing. *)
Theorem first_duplicate_wins (data : list DataPoint) (k c : string) (r : DataPoint) :
  find (fun d => String.eqb (date d) k && String.eqb (category d) c) data = Some r ->
  stack_value (k, bucket_records data k) c = value r
  /\ exists p, segment (stackedData data) k c = Some p /\ height p = value r.
Proof.
  intros Hfind.
  assert (Hv : stack_value (k, bucket_records data k) c = value r).
  { unfold stack_value, bucket_records. cbn [snd].
    rewrite find_filter, Hfind. apply or_zero_some. }
  split; [exact Hv |].
  apply find_some in Hfind. destruct Hfind as [Hin Hkc].
  apply andb_true_iff in Hkc. destruct Hkc as [Hk Hc].
  apply String.eqb_eq in Hk. apply String.eqb_eq in Hc.
  assert (Hb : In (k, bucket_records data k) (d3_group data)).
  { apply bucket_In, bucketKeys_In. exists r. tauto. }
  assert (Hcat : In c (categories data)).
  { apply categories_In. exists r. tauto. }
  rewrite stackedData_spec.
  destruct (segment_stack_from (d3_group data) (d3_group_NoDup data)
              (fun _ => 0) (categories data) _ c Hb Hcat) as [p [Hp [_ Hh]]].
  exists p. cbn [fst] in Hp. rewrite Hh, Hv. auto.
Qed.

Lemma first_duplicate_wins_witness :
  find (fun d => String.eqb (date d) "2024-01" && String.eqb (category d) "A") dupData
  = Some (mkDataPoint "2024-01" "A" (num 20))
  /\ stack_value ("2024-01", bucket_records dupData "2024-01") "A" = num 20
  /\ exists p, segment (stackedData dupData) "2024-01" "A" = Some p
               /\ height p = num 20.
Proof.
  split; [reflexivity |].
  apply (first_duplicate_wins dupData "2024-01" "A"
           (mkDataPoint "2024-01" "A" (num 20))).
  reflexivity.
Defined.

(** C2. Scenario A: the records (2024-01, A, 20) and (2024-01, B, 30) give, in
    the bucket 2024-01, the interval [0, 20] to A and [20, 50] to B, and the
    maximum of the value domain computed from the stacks is 50. *)
Theorem scenario_A :
  categories scenarioA = ["A"; "B"]
  /\ bucketKeys scenarioA = ["2024-01"]
  /\ segment (stackedData scenarioA) "2024-01" "A"
     = Some (mkPoint (num 0) (num 20) ("2024-01", scenarioA))
  /\ segment (stackedData scenarioA) "2024-01" "B"
     = Some (mkPoint (num 20) (num 50) ("2024-01", scenarioA))
  /\ maxDataValue scenarioA = Normal (num 50)
  /\ (forall height, yScale_v1 scenarioA height
                     = Normal (mkLinear (num 0, num 50) (innerHeight height, num 0))).
Proof.
  repeat split; vm_compute; reflexivity.
Qed.

(** ** Maxima and the value scale *)

Section Maxima.

Context {A : Type}.
Variable valueof : A -> number.

Lemma d3_max_fold (l : list A) (m : number) :
  exists m',
    fold_left (fun max a => d3_max_step max (valueof a)) l (Some m) = Some m'
    /\ m <= m'
    /\ (forall x, In x (map valueof l) -> x <= m')
    /\ (m' = m \/ In m' (map valueof l)).
Proof.
  revert m. induction l as [|a l IH]; intros m; simpl.
  - exists m. split; [reflexivity |]. split; [apply Qcle_refl |].
    split; [tauto | now left].
  - destruct (Qcltb m (valueof a)) eqn:E.
    + destruct (IH (valueof a)) as [m' [Hf [Hge [Hub Hin]]]].
      exists m'. split; [exact Hf |].
      apply Qcltb_lt, Qclt_le_weak in E.
      split; [eapply Qcle_trans; eassumption |].
      split.
      * intros x [<- | Hx]; [assumption | now apply Hub].
      * right. destruct Hin as [-> | Hin]; [now left | now right].
    + destruct (IH m) as [m' [Hf [Hge [Hub Hin]]]].
      exists m'. split; [exact Hf |]. split; [assumption |].
      apply Qcltb_ge in E.
      split.
      * intros x [<- | Hx]; [eapply Qcle_trans; eassumption | now apply Hub].
      * destruct Hin as [-> | Hin]; [now left | right; now right].
Qed.

Theorem d3_max_spec (l : list A) :
  l <> [] -> exists m, d3_max l valueof = Some m /\ is_max m (map valueof l).
Proof.
  destruct l as [|a l]; [congruence |]. intros _.
  unfold d3_max. simpl.
  destruct (d3_max_fold l (valueof a)) as [m [Hf [Hge [Hub Hin]]]].
  exists m. split; [exact Hf |]. split.
  - simpl. destruct Hin as [-> | Hin]; [now left | now right].
  - intros x [<- | Hx]; [assumption | now apply Hub].
Qed.

End Maxima.


Lemma js_last_In {A} (l : list A) :
  l <> [] -> exists a, js_last l = Some a /\ In a l.
Proof.
  destruct l as [|a0 l]; [congruence |]. intros _. unfold js_last.
  destruct (nth_error (a0 :: l) (List.length (a0 :: l) - 1)) as [a|] eqn:E.
  - exists a. split; [reflexivity |]. eapply nth_error_In, E.
  - apply nth_error_None in E. simpl in E. lia.
Qed.

Section ValueScale.

Variable data : list DataPoint.
Hypothesis data_nonempty : data <> [].

Lemma last_series :
  exists s, js_last (stackedData data) = Some s /\ points s <> [].
Proof.
  destruct (js_last_In (stackedData data)) as [s [Hs Hin]].
  - intros E. apply (categories_nonempty data data_nonempty).
    pose proof (stack_from_keys (d3_group data) (fun _ => 0) (categories data)) as K.
    rewrite <- stackedData_spec, E in K. now rewrite <- K.
  - exists s. split; [exact Hs |]. intros E.
    rewrite stackedData_spec in Hin. apply stack_from_data in Hin.
    rewrite E in Hin. simpl in Hin.
    apply (bucketKeys_nonempty data data_nonempty).
    unfold bucketKeys. now rewrite <- Hin.
Qed.

(** The maximum taken from the stacks is the greatest bucket top. *)
Lemma maxDataValue_spec :
  exists ms, maxDataValue data = Normal ms /\ is_max ms (stack_tops data).
Proof.
  destruct last_series as [s [Hs Hne]].
  destruct (d3_max_spec p1 (points s) Hne) as [m [Hm Hmax]].
  exists m. unfold maxDataValue, stack_tops. rewrite Hs. simpl.
  rewrite Hm, or_zero_some. split; [reflexivity | exact Hmax].
Qed.

Lemma yScale_v1_spec (height : number) :
  exists ms, yScale_v1 data height = Normal (yScale ms height)
             /\ is_max ms (stack_tops data).
Proof.
  destruct last_series as [s [Hs Hne]].
  destruct (d3_max_spec p1 (points s) Hne) as [m [Hm Hmax]].
  exists m. unfold yScale_v1, stack_tops. rewrite Hs. simpl.
  rewrite Hm, or_zero_some. split; [reflexivity | exact Hmax].
Qed.

End ValueScale.

Lemma maxTargetValue_spec (targets : list QuarterlyTarget) :
  is_max (maxTargetValue targets) (map target_value targets)
  \/ (targets = [] /\ maxTargetValue targets = 0).
Proof.
  destruct targets as [|t l] eqn:E; [right; split; reflexivity |].
  left. rewrite <- E.
  destruct (d3_max_spec target_value targets) as [m [Hm Hmax]]; [congruence |].
  unfold maxTargetValue. now rewrite Hm, or_zero_some.
Qed.

(** A linear scale sends the ends of a domain that is not a single point to
    the ends of its range. *)
Lemma scale_linear_ends (m h : number) :
  m <> 0 ->
  scale_linear (mkLinear (0, m) (h, 0)) 0 = h
  /\ scale_linear (mkLinear (0, m) (h, 0)) m = 0.
Proof.
  intros Hm. unfold scale_linear, bimap. cbn [lin_domain lin_range].
  assert (H1 : Qc_eq_bool (m - 0) 0 = false).
  { unfold Qc_eq_bool. destruct (Qc_eq_dec (m - 0) 0) as [E|]; [| reflexivity].
    exfalso. apply Hm. rewrite <- E. ring. }
  assert (H2 : Qc_eq_bool (0 - m) 0 = false).
  { unfold Qc_eq_bool. destruct (Qc_eq_dec (0 - m) 0) as [E|]; [| reflexivity].
    exfalso. apply Hm. transitivity (- (0 - m)); [ring | rewrite E; ring]. }
  assert (H3 : - m <> 0).
  { intros E. apply Hm. transitivity (- - m); [ring | rewrite E; ring]. }
  destruct (Qcltb m 0); unfold interpolateNumber, normalize; rewrite ?H1, ?H2;
    split; field; assumption.
Qed.

(** On a domain reduced to a point the scale is constant, half-way in its
    range; the guarded branch does not divide. *)
Lemma scale_linear_degenerate (h x : number) :
  scale_linear (mkLinear (0, 0) (h, 0)) x = h * frac 1 2.
Proof.
  unfold scale_linear, bimap. cbn [lin_domain lin_range].
  replace (Qcltb 0 0) with false by reflexivity.
  unfold interpolateNumber, normalize.
  replace (Qc_eq_bool (0 - 0) 0) with true by reflexivity.
  assert (E : 1 - frac 1 2 = frac 1 2) by (apply Qc_is_canon; reflexivity).
  rewrite E. ring.
Qed.

Section TargetEdit.




End TargetEdit.




(** ** The render pass *)

Section RenderPass.

Variables (data : list DataPoint) (width height : number).

Lemma render_v1_normal (ys : LinearScale) :
  yScale_v1 data height = Normal ys ->
  render_v1 true data width height []
  = (preamble width height
     ++ categoryGroups (categories data) (stackedData data)
     ++ flat_map (rects (xScale data width) ys height) (stackedData data)
     ++ axes (xScale data width) ys height
     ++ legend (categories data) width,
     Normal tt).
Proof.
  intros H. unfold render_v1, bind, emit, lift, preamble. cbn [negb].
  rewrite H. cbn [app]. now rewrite <- !app_assoc.
Qed.

Lemma render_v1_throw (e : JsError) :
  yScale_v1 data height = Throw e ->
  render_v1 true data width height [] = (preamble width height, Throw e).
Proof.
  intros H. unfold render_v1, bind, emit, lift, preamble. cbn [negb].
  now rewrite H.
Qed.

Variable targets : list QuarterlyTarget.

Lemma render_v2_normal (ys : LinearScale) :
  yScale_v2 data targets height = Normal ys ->
  render_v2 true data targets width height []
  = (preamble width height
     ++ categoryGroups (categories data) (stackedData data)
     ++ [TargetLine (map (targetPoint (xScale data width) ys) targets) 750]
     ++ targetLabels (xScale data width) ys targets
     ++ flat_map (rects (xScale data width) ys height) (stackedData data)
     ++ axes (xScale data width) ys height
     ++ legend (categories data) width,
     Normal tt).
Proof.
  intros H. unfold render_v2, bind, emit, lift, preamble. cbn [negb].
  rewrite H. cbn [app]. now rewrite <- !app_assoc.
Qed.

Lemma render_v2_throw (e : JsError) :
  yScale_v2 data targets height = Throw e ->
  render_v2 true data targets width height [] = (preamble width height, Throw e).
Proof.
  intros H. unfold render_v2, bind, emit, lift, preamble. cbn [negb].
  now rewrite H.
Qed.

Lemma indexed_In {A} (l : list A) (n i : nat) (a : A) :
  In (i, a) (indexed n l) -> In a l.
Proof.
  revert n. induction l as [|x l IH]; intros n; simpl; [tauto |].
  intros [E | H]; [left; congruence | right; eauto].
Qed.

Lemma bars_In (drawn : list DrawCmd) (b : Bar) :
  In b (bars drawn) <-> In (Rect b) drawn.
Proof.
  unfold bars. rewrite in_flat_map. split.
  - intros [c [Hc Hb]]. destruct c; simpl in Hb; try contradiction.
    destruct Hb as [-> | []]. assumption.
  - intros H. exists (Rect b). split; [assumption | now left].
Qed.

(** Every rectangle comes from a point of a series. *)
Lemma rects_In (ys : LinearScale) (stacked : list Series) (b : Bar) :
  In (Rect b) (flat_map (rects (xScale data width) ys height) stacked) ->
  exists s d, In s stacked /\ In d (points s)
              /\ bar_series b = key s /\ bar_datum b = d
              /\ bar_enter_height b = 0
              /\ bar_y b = scale_linear ys (p1 d)
              /\ bar_height b = scale_linear ys (p0 d) - scale_linear ys (p1 d).
Proof.
  intros H. apply in_flat_map in H. destruct H as [s [Hs H]].
  unfold rects in H. apply in_map_iff in H. destruct H as [[i d] [E Hd]].
  apply indexed_In in Hd. injection E as <-.
  exists s, d. repeat split; assumption.
Qed.

Lemma drawn_v1_bars (ys : LinearScale) (b : Bar) :
  In b (bars (preamble width height
              ++ categoryGroups (categories data) (stackedData data)
              ++ flat_map (rects (xScale data width) ys height) (stackedData data)
              ++ axes (xScale data width) ys height
              ++ legend (categories data) width)) ->
  In (Rect b) (flat_map (rects (xScale data width) ys height) (stackedData data)).
Proof.
  rewrite bars_In, !in_app_iff. unfold categoryGroups, legend, axes, preamble.
  intros [H | [H | [H | [H | H]]]]; try assumption.
  - simpl in H. intuition discriminate.
  - apply in_map_iff in H. destruct H as [s [E _]]. discriminate.
  - simpl in H. intuition discriminate.
  - apply in_map_iff in H. destruct H as [[i c] [E _]]. discriminate.
Qed.

Lemma drawn_v2_bars (ys : LinearScale) (b : Bar) :
  In b (bars (preamble width height
              ++ categoryGroups (categories data) (stackedData data)
              ++ [TargetLine (map (targetPoint (xScale data width) ys) targets) 750]
              ++ targetLabels (xScale data width) ys targets
              ++ flat_map (rects (xScale data width) ys height) (stackedData data)
              ++ axes (xScale data width) ys height
              ++ legend (categories data) width)) ->
  In (Rect b) (flat_map (rects (xScale data width) ys height) (stackedData data)).
Proof.
  rewrite bars_In, !in_app_iff.
  unfold categoryGroups, legend, axes, preamble, targetLabels.
  intros [H | [H | [H | [H | [H | [H | H]]]]]]; try assumption.
  - simpl in H. intuition discriminate.
  - apply in_map_iff in H. destruct H as [s [E _]]. discriminate.
  - simpl in H. intuition discriminate.
  - apply in_map_iff in H. destruct H as [t [E _]]. discriminate.
  - simpl in H. intuition discriminate.
  - apply in_map_iff in H. destruct H as [[i c] [E _]]. discriminate.
Qed.

End RenderPass.

(** ** Records that are all zero *)

Section AllZero.

Variable data : list DataPoint.
Hypothesis all_zero : forall d, In d data -> value d = 0.

Lemma stack_value_zero (b : Bucket) (c : string) :
  In b (d3_group data) -> stack_value b c = 0.
Proof.
  intros Hb. apply d3_group_In in Hb. destruct Hb as [_ Hrecs].
  unfold stack_value.
  destruct (find (fun item => String.eqb (category item) c) (snd b)) as [r|] eqn:E;
    [| reflexivity].
  apply find_some in E. destruct E as [Hr _].
  rewrite Hrecs in Hr. apply bucket_records_In in Hr.
  cbn [option_map]. rewrite or_zero_some. apply all_zero. tauto.
Qed.

Lemma stack_from_zero (g : Bucket -> number) (keys : list string) :
  (forall b, In b (d3_group data) -> g b = 0) ->
  forall s p, In s (stack_from (d3_group data) g keys) -> In p (points s) ->
              p0 p = 0 /\ p1 p = 0.
Proof.
  revert g. induction keys as [|c keys IH]; intros g Hg s p; simpl; [tauto |].
  intros [<- | Hs] Hp.
  - simpl in Hp. apply in_map_iff in Hp. destruct Hp as [b [<- Hb]]. simpl.
    rewrite (Hg b Hb), (stack_value_zero b c Hb). split; [reflexivity | ring].
  - apply (IH (fun b => stack_value b c + g b)) with (s := s); try assumption.
    intros b Hb. rewrite (Hg b Hb), (stack_value_zero b c Hb). ring.
Qed.

Lemma stackedData_zero (s : Series) (p : SeriesPoint) :
  In s (stackedData data) -> In p (points s) -> p0 p = 0 /\ p1 p = 0.
Proof.
  rewrite stackedData_spec. apply stack_from_zero. reflexivity.
Qed.

Lemma stack_tops_zero (m : number) : In m (stack_tops data) -> m = 0.
Proof.
  unfold stack_tops. destruct (js_last (stackedData data)) as [s|] eqn:E;
    [| contradiction].
  intros H. apply in_map_iff in H. destruct H as [p [<- Hp]].
  assert (Hs : In s (stackedData data)).
  { destruct (stackedData data) as [|s0 l] eqn:El; [discriminate |].
    unfold js_last in E. eapply nth_error_In, E. }
  apply (stackedData_zero s p Hs Hp).
Qed.

Lemma zero_bars (ys : LinearScale) (width height : number) (b : Bar) :
  In (Rect b) (flat_map (rects (xScale data width) ys height) (stackedData data)) ->
  bar_height b = 0 /\ bar_enter_height b = 0.
Proof.
  intros H. apply rects_In in H.
  destruct H as (s & d & Hs & Hd & _ & _ & He & _ & Hh).
  destruct (stackedData_zero s d Hs Hd) as [E0 E1].
  rewrite Hh, He, E0, E1. split; [ring | reflexivity].
Qed.

End AllZero.

Lemma render_nonempty_completes (data : list DataPoint)
    (targets : list QuarterlyTarget) (width height : number) :
  data <> [] ->
  (exists drawn, render_v1 true data width height [] = (drawn, Normal tt))
  /\ (exists drawn, render_v2 true data targets width height [] = (drawn, Normal tt)).
Proof.
  intros Hne. split.
  - destruct (yScale_v1_spec data Hne height) as [ms [Hy _]].
    eexists. apply render_v1_normal, Hy.
  - destruct (maxDataValue_spec data Hne) as [ms [Hm _]].
    eexists. apply render_v2_normal. unfold yScale_v2, maxValue.
    rewrite Hm. reflexivity.
Qed.

(** C6. Zero-domain safety: for a non-empty record set whose values are all
    zero, both revisions complete the render pass without an exception,
    every rectangle has height 0 when it enters and when its transition
    ends; the band scale divides by a number that is not 0, and the value
    scale of the revision without overlay, whose domain is the single
    point 0, is the constant function that takes the guarded branch of the
    normaliser instead of dividing by the width of the domain. *)
Theorem zero_domain_safety (data : list DataPoint) (targets : list QuarterlyTarget)
    (width height : number) :
  data <> [] ->
  (forall d, In d data -> value d = 0) ->
  (exists drawn,
      render_v1 true data width height [] = (drawn, Normal tt)
      /\ forall b, In b (bars drawn) -> bar_height b = 0 /\ bar_enter_height b = 0)
  /\ (exists drawn,
        render_v2 true data targets width height [] = (drawn, Normal tt)
        /\ forall b, In b (bars drawn) -> bar_height b = 0 /\ bar_enter_height b = 0)
  /\ band_divisor (xScale data width) <> 0
  /\ yScale_v1 data height = Normal (mkLinear (0, 0) (innerHeight height, 0))
  /\ (forall x, scale_linear (mkLinear (0, 0) (innerHeight height, 0)) x
                = innerHeight height * frac 1 2).
Proof.
  intros Hne Hzero.
  destruct (yScale_v1_spec data Hne height) as [ms [Hy1 [Hin1 _]]].
  destruct (maxDataValue_spec data Hne) as [ms' [Hm2 _]].
  split; [| split; [| split; [| split]]].
  - eexists. split; [apply render_v1_normal, Hy1 |].
    intros b Hb. apply drawn_v1_bars in Hb. now apply zero_bars in Hb.
  - eexists. split.
    + apply render_v2_normal. unfold yScale_v2, maxValue. rewrite Hm2. reflexivity.
    + intros b Hb. apply drawn_v2_bars in Hb. now apply zero_bars in Hb.
  - apply band_divisor_nonzero.
  - rewrite Hy1. now rewrite (stack_tops_zero data Hzero ms Hin1).
  - intros x. apply scale_linear_degenerate.
Qed.

Lemma zero_domain_safety_witness :
  zeroData <> []
  /\ (forall d, In d zeroData -> value d = 0)
  /\ (exists drawn,
         render_v1 true zeroData (num 800) (num 400) [] = (drawn, Normal tt)
         /\ forall b, In b (bars drawn) -> bar_height b = 0 /\ bar_enter_height b = 0)
  /\ (exists drawn,
         render_v2 true zeroData zeroTargets (num 800) (num 400) [] = (drawn, Normal tt)
         /\ forall b, In b (bars drawn) -> bar_height b = 0 /\ bar_enter_height b = 0)
  /\ band_divisor (xScale zeroData (num 800)) <> 0
  /\ yScale_v1 zeroData (num 400)
     = Normal (mkLinear (0, 0) (innerHeight (num 400), 0))
  /\ (forall x, scale_linear (mkLinear (0, 0) (innerHeight (num 400), 0)) x
                = innerHeight (num 400) * frac 1 2).
Proof.
  assert (Hne : zeroData <> []) by discriminate.
  assert (Hz : forall d, In d zeroData -> value d = 0).
  { intros d [<- | []]. reflexivity. }
  split; [exact Hne |]. split; [exact Hz |].
  exact (zero_domain_safety zeroData zeroTargets (num 800) (num 400) Hne Hz).
Defined.

(** C7 fails on the empty record array: the pass sizes the svg, schedules
    the removal of what was drawn before and appends the plot group, then
    the maximum over the last series of an empty stack raises a TypeError,
    in both revisions. The pass is aborted partway. *)
Theorem render_empty_aborts (targets : list QuarterlyTarget) (width height : number) :
  initialState (Some []) = []
  /\ render_v1 true (initialState (Some [])) width height []
     = (preamble width height, Throw (TypeError "undefined is not iterable"))
  /\ render_v2 true (initialState (Some [])) targets width height []
     = (preamble width height, Throw (TypeError "undefined is not iterable")).
Proof.
  split; [reflexivity |]. split.
  - apply render_v1_throw. reflexivity.
  - apply render_v2_throw. reflexivity.
Qed.

(** ** Interaction *)

Lemma mouseover_text (offsetX offsetY : number) (d : SeriesPoint) :
  tip_text (mouseover offsetX offsetY d)
  = [Str (fst (pdata d)); Lit ": "; Num (height d)].
Proof. reflexivity. Qed.

(** C5 fails on the label: the handler shows top minus bottom of the
    interval, but beside it the key of the bucket, not the category of the
    segment. For the sample data, each rectangle with its category and the
    text of its tooltip. *)
Theorem tooltip_shows_bucket_key (offsetX offsetY : number) :
  map (fun b => (bar_series b, tip_text (mouseover offsetX offsetY (bar_datum b))))
      (bars (fst (render_v2 true sampleData sampleTargets (num 800) (num 400) [])))
  = [ ("A", [Str "2024-01"; Lit ": "; Num (num 20)]);
      ("A", [Str "2024-02"; Lit ": "; Num (num 25)]);
      ("A", [Str "2024-03"; Lit ": "; Num (num 30)]);
      ("B", [Str "2024-01"; Lit ": "; Num (num 30)]);
      ("B", [Str "2024-02"; Lit ": "; Num (num 35)]);
      ("B", [Str "2024-03"; Lit ": "; Num (num 25)]);
      ("C", [Str "2024-01"; Lit ": "; Num (num 15)]);
      ("C", [Str "2024-02"; Lit ": "; Num (num 20)]);
      ("C", [Str "2024-03"; Lit ": "; Num (num 25)]) ].
Proof. vm_compute. reflexivity. Qed.

Section Legend.

Variables (category : string) (groups : list GroupNode) (o : string).
Hypothesis category_drawn : In category (map group_key groups).
Hypothesis opacity_read :
  forall g, In g groups -> group_key g = category -> style_opacity g = o.

Lemma legend_click_spec :
  legend_click category groups
  = Normal (map (fun d =>
                   if String.eqb (group_key d) category
                   then mkGroup (group_key d)
                                (Some (if String.eqb o "1" then "0.2" else "1"))
                   else d)
                groups).
Proof.
  unfold legend_click.
  destruct (filter (fun d => String.eqb (group_key d) category) groups)
    as [|node rest] eqn:E.
  - exfalso. apply in_map_iff in category_drawn.
    destruct category_drawn as [g [Hk Hg]].
    assert (Hin : In g (filter (fun d => String.eqb (group_key d) category) groups)).
    { apply filter_In. split; [assumption | now apply String.eqb_eq]. }
    rewrite E in Hin. contradiction.
  - assert (Hin : In node (filter (fun d => String.eqb (group_key d) category) groups)).
    { rewrite E. now left. }
    apply filter_In in Hin. destruct Hin as [Hn Hk]. apply String.eqb_eq in Hk.
    now rewrite (opacity_read node Hn Hk).
Qed.

End Legend.

(** Once every transition has ended before the next click, two clicks in a
    row leave every category group with the opacity it read before. *)
Lemma legend_click_twice_restores (category : string) (groups : list GroupNode) (o : string) :
  o = "1" \/ o = "0.2" ->
  In category (map group_key groups) ->
  (forall g, In g groups -> group_key g = category -> style_opacity g = o) ->
  exists groups',
    legend_click_twice category groups = Normal groups'
    /\ map group_key groups' = map group_key groups
    /\ map style_opacity groups' = map style_opacity groups.
Proof.
  intros Ho Hin Hread. unfold legend_click_twice.
  set (flip := fun v : string => if String.eqb v "1" then "0.2" else "1").
  set (toggle := fun v d => if String.eqb (group_key d) category
                            then mkGroup (group_key d) (Some v) else d).
  assert (Hkey : forall v l, map group_key (map (toggle v) l) = map group_key l).
  { intros v l. rewrite map_map. apply map_ext. intros d. unfold toggle.
    now destruct (String.eqb (group_key d) category). }
  assert (E1 : legend_click category groups = Normal (map (toggle (flip o)) groups)).
  { exact (legend_click_spec category groups o Hin Hread). }
  assert (E2 : legend_click category (map (toggle (flip o)) groups)
               = Normal (map (toggle (flip (flip o))) (map (toggle (flip o)) groups))).
  { apply (legend_click_spec category (map (toggle (flip o)) groups) (flip o)).
    - now rewrite Hkey.
    - intros g Hg Hk. apply in_map_iff in Hg. destruct Hg as [d [<- Hd]].
      unfold toggle in *. destruct (String.eqb (group_key d) category) eqn:E.
      + destruct Ho as [-> | ->]; reflexivity.
      + apply String.eqb_neq in E. contradiction. }
  rewrite E1, E2. eexists. split; [reflexivity |].
  split; [now rewrite !Hkey |].
  rewrite !map_map. apply map_ext_in. intros d Hd. unfold toggle.
  destruct (String.eqb (group_key d) category) eqn:E; cbn [group_key]; rewrite E.
  - apply String.eqb_eq in E. rewrite (Hread d Hd E).
    destruct Ho as [-> | ->]; reflexivity.
  - reflexivity.
Qed.

(** ** The legend click with its transition *)

Section LiveLegend.

Variable category : string.

Lemma on_category_keys (f : LiveGroup -> LiveGroup) (groups : list LiveGroup) :
  (forall d, live_key (f d) = live_key d) ->
  map live_key (on_category category f groups) = map live_key groups.
Proof.
intros Hf. unfold on_category. rewrite map_map. apply map_ext. intros d.
destruct (String.eqb (live_key d) category); [apply Hf | reflexivity].
Qed.

Lemma on_category_compose (f h : LiveGroup -> LiveGroup) (groups : list LiveGroup) :
  (forall d, live_key (f d) = live_key d) ->
  on_category category h (on_category category f groups)
  = on_category category (fun d => h (f d)) groups.
Proof.
intros Hf. unfold on_category. rewrite map_map. apply map_ext. intros d.
destruct (String.eqb (live_key d) category) eqn:E; [| now rewrite E].
now rewrite Hf, E.
Qed.

Lemma on_category_ext (f h : LiveGroup -> LiveGroup) (groups : list LiveGroup) :
  (forall d, In d groups -> live_key d = category -> f d = h d) ->
  on_category category f groups = on_category category h groups.
Proof.
intros H. unfold on_category. apply map_ext_in. intros d Hd.
destruct (String.eqb (live_key d) category) eqn:E; [| reflexivity].
apply String.eqb_eq in E. now apply H.
Qed.

Lemma on_category_In (f : LiveGroup -> LiveGroup) (groups : list LiveGroup)
    (g : LiveGroup) :
  (forall d, live_key (f d) = live_key d) ->
  In g (on_category category f groups) -> live_key g = category ->
  exists d, In d groups /\ live_key d = category /\ g = f d.
Proof.
intros Hf Hg Hk. unfold on_category in Hg. apply in_map_iff in Hg.
destruct Hg as [d [E Hd]]. exists d.
destruct (String.eqb (live_key d) category) eqn:Ek.
- apply String.eqb_eq in Ek. now subst g.
- apply String.eqb_neq in Ek. subst g. contradiction.
Qed.

Lemma node_step_key (ev : LegendEvent) (d : LiveGroup) :
  live_key (node_step ev d) = live_key d.
Proof.
destruct ev; simpl; unfold tick_node, end_node; try reflexivity;
  destruct (live_target d) as [t|]; try reflexivity;
  destruct (String.eqb (live_style d) t); reflexivity.
Qed.

Lemma node_run_key (events : list LegendEvent) (d : LiveGroup) :
  live_key (node_run events d) = live_key d.
Proof.
unfold node_run. revert d. induction events as [|ev l IH]; intros d; simpl;
  [reflexivity |]. now rewrite IH, node_step_key.
Qed.

Lemma node_run_app (l1 l2 : list LegendEvent) (d : LiveGroup) :
  node_run (l1 ++ l2) d = node_run l2 (node_run l1 d).
Proof. unfold node_run. apply fold_left_app. Qed.

(** Two nodes that show the same style and have the same target still do
    after an event. *)
Lemma node_step_alike (ev : LegendEvent) (d d' : LiveGroup) :
  live_style d = live_style d' -> live_target d = live_target d' ->
  live_style (node_step ev d) = live_style (node_step ev d')
  /\ live_target (node_step ev d) = live_target (node_step ev d').
Proof.
destruct d as [k o t], d' as [k' o' t']. unfold live_style.
cbn [live_key live_opacity live_target].
intros Hs <-.
destruct ev; cbn [node_step]; unfold schedule, tick_node, end_node, live_style;
  cbn [live_key live_opacity live_target].
- split; [exact Hs | now rewrite Hs].
- rewrite <- Hs. destruct t as [t|]; [| now split].
  destruct (String.eqb (style_opacity (mkGroup k o)) t);
    cbn [live_key live_opacity live_target]; split; auto.
- rewrite <- Hs. destruct t as [t|]; [| now split].
  destruct (String.eqb (style_opacity (mkGroup k o)) t);
    cbn [live_key live_opacity live_target]; split; auto.
Qed.

Lemma legend_step_per_node (ev : LegendEvent) (groups : list LiveGroup) :
  event_category ev = category ->
  In category (map live_key groups) ->
  (forall g g', In g groups -> In g' groups ->
                live_key g = category -> live_key g' = category ->
                live_style g = live_style g') ->
  legend_step ev groups = Normal (on_category category (node_step ev) groups).
Proof.
intros Hev Hin Halike. destruct ev as [c | c shown | c]; simpl in Hev; subst c;
  simpl; try reflexivity.
unfold click_start.
destruct (filter (fun d => String.eqb (live_key d) category) groups)
  as [|node rest] eqn:F.
- exfalso. apply in_map_iff in Hin. destruct Hin as [g [Hk Hg]].
  assert (H : In g (filter (fun d => String.eqb (live_key d) category) groups)).
  { apply filter_In. split; [assumption | now apply String.eqb_eq]. }
  rewrite F in H. contradiction.
- assert (Hn : In node (filter (fun d => String.eqb (live_key d) category) groups)).
  { rewrite F. now left. }
  apply filter_In in Hn. destruct Hn as [Hn Hk]. apply String.eqb_eq in Hk.
  f_equal. apply on_category_ext. intros d Hd Hdk.
  now rewrite (Halike node d Hn Hd Hk Hdk).
Qed.

Theorem legend_run_per_node (events : list LegendEvent) (groups : list LiveGroup) :
  Forall (fun ev => event_category ev = category) events ->
  In category (map live_key groups) ->
  (forall g g', In g groups -> In g' groups ->
                live_key g = category -> live_key g' = category ->
                live_style g = live_style g' /\ live_target g = live_target g') ->
  legend_run events groups = Normal (on_category category (node_run events) groups).
Proof.
intros Hev. revert groups. induction Hev as [|ev l Hc Hl IH]; intros groups Hin Halike.
- simpl. f_equal. unfold on_category. rewrite <- (map_id groups) at 1.
  apply map_ext. intros d. now destruct (String.eqb (live_key d) category).
- simpl. rewrite (legend_step_per_node ev groups Hc Hin)
    by (intros g g' Hg Hg' Hk Hk'; now apply Halike).
  rewrite IH.
  + rewrite on_category_compose by apply node_step_key. reflexivity.
  + now rewrite on_category_keys by apply node_step_key.
  + intros g g' Hg Hg' Hk Hk'.
    apply (on_category_In _ _ _ (node_step_key ev)) in Hg; [| assumption].
    apply (on_category_In _ _ _ (node_step_key ev)) in Hg'; [| assumption].
    destruct Hg as [d [Hd [Hdk ->]]]. destruct Hg' as [d' [Hd' [Hdk' ->]]].
    destruct (Halike d d' Hd Hd' Hdk Hdk') as [Hs Ht].
    now apply node_step_alike.
Qed.

End LiveLegend.

Lemma ticks_keep_target (c : string) (frames : list string) (d : LiveGroup) :
  live_target (node_run (map (Tick c) frames) d) = live_target d.
Proof.
unfold node_run. revert d. induction frames as [|s l IH]; intros d; simpl;
  [reflexivity |].
rewrite IH. destruct d as [k o [t|]]; unfold tick_node; cbn [live_target];
  [| reflexivity].
destruct (String.eqb (live_style (mkLive k o (Some t))) t); reflexivity.
Qed.

Lemma end_node_settles (d : LiveGroup) (t : string) :
  live_target d = Some t -> t = "1" \/ t = "0.2" ->
  live_style (end_node d) = t /\ live_target (end_node d) = None.
Proof.
intros Ht Hv. unfold end_node. rewrite Ht.
destruct (String.eqb (live_style d) t) eqn:E.
- apply String.eqb_eq in E. split; [exact E | reflexivity].
- split; [| reflexivity]. destruct Hv as [-> | ->]; reflexivity.
Qed.

(** One click with its transition run to the end leaves a node at rest
    with the other of the two opacities. *)
Lemma node_click_settles (c : string) (frames : list string) (d : LiveGroup) (o : string) :
  o = "1" \/ o = "0.2" ->
  live_style d = o ->
  live_style (node_run ([Click c] ++ map (Tick c) frames ++ [Finish c]) d)
  = (if String.eqb o "1" then "0.2" else "1")
  /\ live_target (node_run ([Click c] ++ map (Tick c) frames ++ [Finish c]) d) = None.
Proof.
intros Ho Hs. rewrite !node_run_app.
change (node_run [Finish c] ?x) with (end_node x).
apply end_node_settles.
- rewrite ticks_keep_target. simpl. now rewrite Hs.
- destruct Ho as [-> | ->]; [right | left]; reflexivity.
Qed.

(** C8, as the code has it: for a drawn category whose bars are at rest and
    read as fully opaque ("1") or as dimmed ("0.2"), two clicks on its
    legend entry, the second one after the transition started by the first
    has ended, raise no exception and leave every category group, of that
    category and of the others, with the opacity it showed before the first
    click and at rest; the frames of the two transitions may show any
    interpolated opacity. *)
Theorem legend_toggle_twice (category : string) (groups : list LiveGroup) (o : string)
    (frames1 frames2 : list string) :
  o = "1" \/ o = "0.2" ->
  In category (map live_key groups) ->
  (forall g, In g groups -> live_key g = category ->
             live_style g = o /\ live_target g = None) ->
  exists groups',
    legend_run ([Click category] ++ (map (Tick category) frames1 ++ [Finish category])
                ++ [Click category] ++ map (Tick category) frames2
                ++ [Finish category]) groups
    = Normal groups'
    /\ map live_key groups' = map live_key groups
    /\ map live_style groups' = map live_style groups
    /\ map live_target groups' = map live_target groups.
Proof.
intros Ho Hin Hrest.
set (events := [Click category] ++ (map (Tick category) frames1 ++ [Finish category])
               ++ [Click category] ++ map (Tick category) frames2 ++ [Finish category]).
assert (Hev : Forall (fun ev => event_category ev = category) events).
{ unfold events. repeat (apply Forall_app; split);
    try (apply Forall_forall; intros ev Hev; apply in_map_iff in Hev;
         destruct Hev as [s [<- _]]; reflexivity);
    repeat constructor. }
rewrite (legend_run_per_node category events groups Hev Hin).
- eexists. split; [reflexivity |].
  split; [apply on_category_keys, node_run_key |].
  assert (Hnode : forall d, In d groups -> live_key d = category ->
            live_style (node_run events d) = live_style d
            /\ live_target (node_run events d) = live_target d).
  { intros d Hd Hk. destruct (Hrest d Hd Hk) as [Hs Ht]. rewrite Hs, Ht.
    unfold events.
    replace ([Click category] ++ (map (Tick category) frames1 ++ [Finish category])
             ++ [Click category] ++ map (Tick category) frames2 ++ [Finish category])
      with (([Click category] ++ map (Tick category) frames1 ++ [Finish category])
            ++ ([Click category] ++ map (Tick category) frames2 ++ [Finish category]))
      by (now rewrite <- !app_assoc).
    rewrite node_run_app.
    destruct (node_click_settles category frames1 d o Ho Hs) as [S1 _].
    assert (Ho' : (if String.eqb o "1" then "0.2" else "1") = "1"
                  \/ (if String.eqb o "1" then "0.2" else "1") = "0.2").
    { destruct Ho as [-> | ->]; [right | left]; reflexivity. }
    destruct (node_click_settles category frames2 _ _ Ho' S1) as [S2 T2].
    rewrite S2, T2. split; [| reflexivity].
    destruct Ho as [-> | ->]; reflexivity. }
  unfold on_category. rewrite !map_map.
  split; apply map_ext_in; intros d Hd;
    destruct (String.eqb (live_key d) category) eqn:E; try reflexivity;
    apply String.eqb_eq in E; now apply Hnode.
- intros g g' Hg Hg' Hk Hk'.
  destruct (Hrest g Hg Hk) as [-> ->]. destruct (Hrest g' Hg' Hk') as [-> ->].
  now split.
Qed.

Lemma legend_toggle_twice_witness :
  ("0.2" = "1" \/ "0.2" = "0.2")
  /\ In "B" (map live_key dimmedSample)
  /\ (forall g, In g dimmedSample -> live_key g = "B" ->
                live_style g = "0.2" /\ live_target g = None)
  /\ exists groups',
       legend_run ([Click "B"] ++ (map (Tick "B") ["0.6"] ++ [Finish "B"])
                   ++ [Click "B"] ++ map (Tick "B") ["0.7"; "0.4"]
                   ++ [Finish "B"]) dimmedSample
       = Normal groups'
       /\ map live_key groups' = map live_key dimmedSample
       /\ map live_style groups' = map live_style dimmedSample
       /\ map live_target groups' = map live_target dimmedSample.
Proof.
assert (Ho : "0.2" = "1" \/ "0.2" = "0.2") by (right; reflexivity).
assert (Hin : In "B" (map live_key dimmedSample)) by (vm_compute; tauto).
assert (Hrest : forall g, In g dimmedSample -> live_key g = "B" ->
                          live_style g = "0.2" /\ live_target g = None).
{ intros g Hg Hk. vm_compute in Hg.
  destruct Hg as [<- | [<- | [<- | []]]]; try discriminate. split; reflexivity. }
split; [exact Ho |]. split; [exact Hin |]. split; [exact Hrest |].
exact (legend_toggle_twice "B" dimmedSample "0.2" ["0.6"] ["0.7"; "0.4"] Ho Hin Hrest).
Defined.

(** C8, as the spec words it, fails when the second click comes inside the
    transition started by the first. On the sample chart with category B
    dimmed (reached by a click whose transition has ended): a click starts
    the transition to "1", a frame shows "0.6", the second click reads
    "0.6", which is not "1", and asks for "1" again, so B ends fully opaque
    and not dimmed. On the fresh chart: a second click before the first
    frame reads "1" again and asks for "0.2" again, so B ends dimmed. *)
Lemma legend_toggle_inside_transition :
  legend_run [Click "B"; Finish "B"] (liveGroups (stackedData sampleData))
  = Normal dimmedSample
  /\ ~ double_click_restores "B" [Tick "B" "0.6"] [] dimmedSample
  /\ ~ double_click_restores "B" [] [] (liveGroups (stackedData sampleData)).
Proof.
split; [reflexivity |]. split.
- intros [groups' [Hrun Hstyle]]. vm_compute in Hrun. injection Hrun as <-.
  vm_compute in Hstyle. discriminate.
- intros [groups' [Hrun Hstyle]]. vm_compute in Hrun. injection Hrun as <-.
  vm_compute in Hstyle. discriminate.
Qed.

Lemma end_schedule_at_rest (d : GroupNode) (target : string) :
  target = "1" \/ target = "0.2" ->
  live_key (end_node (schedule target (at_rest d))) = group_key d
  /\ live_style (end_node (schedule target (at_rest d))) = target
  /\ live_target (end_node (schedule target (at_rest d))) = None.
Proof.
intros Ht. split; [apply (node_step_key (Finish "") (schedule target (at_rest d))) |].
now apply end_node_settles.
Qed.

(** The click handler with its transition run to the end shows what
    [legend_click] gives: the same exception, or the same keys and the
    same opacities with every transition ended. *)
Lemma legend_click_settled (category : string) (groups : list GroupNode) :
  match legend_click category groups with
  | Normal settled =>
      exists live,
        legend_run [Click category; Finish category] (map at_rest groups) = Normal live
        /\ map live_key live = map group_key settled
        /\ map live_style live = map style_opacity settled
        /\ map live_target live = map (fun _ => None) settled
  | Throw e =>
      legend_run [Click category; Finish category] (map at_rest groups) = Throw e
  end.
Proof.
unfold legend_click. simpl. unfold click_start.
assert (F : filter (fun d => String.eqb (live_key d) category) (map at_rest groups)
            = map at_rest (filter (fun d => String.eqb (group_key d) category) groups)).
{ induction groups as [|g l IH]; simpl; [reflexivity |].
  destruct (String.eqb (group_key g) category); simpl; now rewrite IH. }
rewrite F.
destruct (filter (fun d => String.eqb (group_key d) category) groups) as [|node rest];
  [reflexivity |].
simpl. eexists. split; [reflexivity |].
unfold transition_end, on_category. rewrite !map_map.
change (live_style (at_rest node)) with (style_opacity node).
set (target := if String.eqb (style_opacity node) "1" then "0.2" else "1").
assert (Ht : target = "1" \/ target = "0.2").
{ unfold target. destruct (String.eqb (style_opacity node) "1"); auto. }
assert (Hnode : forall d : GroupNode,
  let n := (if String.eqb (live_key (if String.eqb (live_key (at_rest d)) category
                                     then schedule target (at_rest d) else at_rest d))
                          category
            then end_node (if String.eqb (live_key (at_rest d)) category
                           then schedule target (at_rest d) else at_rest d)
            else (if String.eqb (live_key (at_rest d)) category
                  then schedule target (at_rest d) else at_rest d)) in
  let g := (if String.eqb (group_key d) category
            then mkGroup (group_key d) (Some target) else d) in
  live_key n = group_key g /\ live_style n = style_opacity g /\ live_target n = None).
{ intros d. cbn [at_rest live_key].
  destruct (String.eqb (group_key d) category) eqn:E; cbn [schedule live_key at_rest];
    rewrite E; cbv zeta.
  - destruct (end_schedule_at_rest d target Ht) as (K & S & T).
    split; [exact K |]. split; [| exact T].
    rewrite S. destruct Ht as [-> | ->]; reflexivity.
  - repeat split. }
split; [| split]; apply map_ext; intros d; apply (Hnode d).
Qed.

(** * Further properties of the component *)

(** ** Grouping *)

Lemma group_push_records (k : string) (d : DataPoint) (groups : list Bucket) :
  Permutation (flat_map snd (group_push k d groups)) (flat_map snd groups ++ [d]).
Proof.
induction groups as [|[k' ds] rest IH]; simpl; [reflexivity |].
destruct (String.eqb k' k); simpl.
- rewrite <- !app_assoc. apply Permutation_app_head, Permutation_app_comm.
- rewrite <- app_assoc. now apply Permutation_app_head.
Qed.

(** X1. Grouping by date neither loses nor repeats a record: the groups, read
    one after the other, are a rearrangement of the input; the keys are
    pairwise distinct; every group holds, in input order, exactly the
    records of its key, and is never empty. *)
Theorem grouping_partitions (data : list DataPoint) :
  Permutation (flat_map snd (groupedData data)) data
  /\ NoDup (map fst (groupedData data))
  /\ (forall b, In b (groupedData data) ->
        snd b = filter (fun d => String.eqb (date d) (fst b)) data /\ snd b <> []).
Proof.
split; [| split].
- induction data as [|d l IH] using rev_ind; [reflexivity |].
  rewrite d3_group_snoc, group_push_records.
  now apply Permutation_app_tail.
- apply d3_group_NoDup.
- intros b Hb. apply d3_group_In in Hb. destruct Hb as [Hk Hrecs].
  split; [exact Hrecs |].
  apply in_map_iff in Hk. destruct Hk as [r [Hd Hr]].
  assert (Hin : In r (snd b)).
  { rewrite Hrecs. apply bucket_records_In. tauto. }
  intros E. rewrite E in Hin. contradiction.
Qed.

(** ** Stacking *)

Lemma segment_baseline (groups : list Bucket) (g : Bucket -> number)
    (pre post : list string) (b : Bucket) (c : string) :
  NoDup (map fst groups) -> In b groups -> ~ In c pre ->
  segment (stack_from groups g (pre ++ c :: post)) (fst b) c
  = Some (mkPoint (sum (map (stack_value b) pre) + g b)
                  (stack_value b c + (sum (map (stack_value b) pre) + g b)) b).
Proof.
intros Hnd Hb. revert g. induction pre as [|c0 pre IH]; intros g Hc.
- unfold segment. simpl. rewrite String.eqb_refl. simpl.
  rewrite (find_bucket groups Hnd _ _ b Hb). do 2 f_equal; ring.
- assert (E : String.eqb c0 c = false).
  { apply String.eqb_neq. intros ->. apply Hc. now left. }
  unfold segment in *. simpl. rewrite E.
  rewrite (IH (fun b => stack_value b c0 + g b)) by (intros H; apply Hc; now right).
  simpl. do 2 f_equal; ring.
Qed.

(** X2. The interval of a category in a bucket starts at the sum of the accessor
    values of the categories before it in the category order, and is as
    high as the accessor value of the pair; the first category starts at 0. *)
Theorem stack_baseline (data : list DataPoint) (k c : string)
    (pre post : list string) :
  In k (bucketKeys data) ->
  categories data = pre ++ c :: post ->
  exists p,
    segment (stackedData data) k c = Some p
    /\ pdata p = (k, bucket_records data k)
    /\ p0 p = sum (map (stack_value (k, bucket_records data k)) pre)
    /\ p1 p = p0 p + stack_value (k, bucket_records data k) c.
Proof.
intros Hk Hcats.
assert (Hc : ~ In c pre).
{ pose proof (js_set_NoDup (map category data)) as Hnd.
  fold (categories data) in Hnd. rewrite Hcats in Hnd.
  apply NoDup_remove_2 in Hnd. intros H. apply Hnd, in_or_app. now left. }
rewrite stackedData_spec, Hcats.
pose proof (segment_baseline (d3_group data) (fun _ => 0) pre post
              (k, bucket_records data k) c (d3_group_NoDup data)
              (bucket_In data k Hk) Hc) as H.
cbn [fst] in H. rewrite H. eexists. split; [reflexivity |].
cbn [pdata p0 p1]. split; [reflexivity |]. split; ring.
Qed.

Lemma stack_baseline_witness :
  In "2024-02" (bucketKeys sampleData)
  /\ categories sampleData = ["A"; "B"] ++ "C" :: []
  /\ exists p,
       segment (stackedData sampleData) "2024-02" "C" = Some p
       /\ pdata p = ("2024-02", bucket_records sampleData "2024-02")
       /\ p0 p = sum (map (stack_value ("2024-02", bucket_records sampleData "2024-02"))
                          ["A"; "B"])
       /\ p1 p = p0 p + stack_value ("2024-02", bucket_records sampleData "2024-02") "C".
Proof.
assert (Hk : In "2024-02" (bucketKeys sampleData)) by (vm_compute; tauto).
assert (Hc : categories sampleData = ["A"; "B"] ++ "C" :: []) by reflexivity.
split; [exact Hk |]. split; [exact Hc |].
exact (stack_baseline sampleData "2024-02" "C" ["A"; "B"] [] Hk Hc).
Defined.

(** ** What a pass draws *)

Lemma map_indexed {A B} (f : nat * A -> B) (g : A -> B) (l : list A) (n : nat) :
  (forall i a, f (i, a) = g a) -> map f (indexed n l) = map g l.
Proof.
intros H. revert n. induction l as [|a l IH]; intros n; simpl; [reflexivity |].
now rewrite H, IH.
Qed.

Lemma stack_from_pairs (groups : list Bucket) (g : Bucket -> number) (keys : list string) :
  flat_map (fun s => map (fun p => (key s, fst (pdata p))) (points s))
           (stack_from groups g keys)
  = list_prod keys (map fst groups).
Proof.
revert g. induction keys as [|c keys IH]; intros g; simpl; [reflexivity |].
rewrite IH. f_equal. now rewrite !map_map.
Qed.

Lemma bars_app (l1 l2 : list DrawCmd) : bars (l1 ++ l2) = bars l1 ++ bars l2.
Proof. apply flat_map_app. Qed.

Lemma bars_rects (xs : BandScale) (ys : LinearScale) (height : number)
    (stacked : list Series) :
  map (fun b => (bar_series b, fst (pdata (bar_datum b))))
      (bars (flat_map (rects xs ys height) stacked))
  = flat_map (fun s => map (fun p => (key s, fst (pdata p))) (points s)) stacked.
Proof.
induction stacked as [|s l IH]; simpl; [reflexivity |].
rewrite bars_app, map_app, IH. f_equal.
unfold rects. generalize (points s) O.
intros pts. induction pts as [|p pts IHp]; intros n; simpl; [reflexivity |].
now rewrite IHp.
Qed.

Lemma bars_map_none {A} (f : A -> DrawCmd) (l : list A) :
  (forall a, bars [f a] = []) -> bars (map f l) = [].
Proof.
intros H. induction l as [|a l IH]; [reflexivity |].
change (map f (a :: l)) with ([f a] ++ map f l).
now rewrite bars_app, H, IH.
Qed.

Lemma bars_categoryGroups (cats : list string) (stacked : list Series) :
  bars (categoryGroups cats stacked) = [].
Proof. apply bars_map_none. reflexivity. Qed.

Lemma bars_legend (cats : list string) (width : number) : bars (legend cats width) = [].
Proof. apply bars_map_none. intros [i c]. reflexivity. Qed.

Lemma bars_targetLabels (xs : BandScale) (ys : LinearScale)
    (targets : list QuarterlyTarget) :
  bars (targetLabels xs ys targets) = [].
Proof. apply bars_map_none. reflexivity. Qed.

(** X3. For a non-empty record array both revisions complete the pass and draw
    exactly one rectangle per (category, bucket) pair: the rectangles,
    read in drawing order with the series they belong to and the bucket of
    their datum, are the categories times the bucket keys. *)
Theorem one_rect_per_pair (data : list DataPoint) (targets : list QuarterlyTarget)
    (width height : number) :
  data <> [] ->
  exists drawn1 drawn2,
    render_v1 true data width height [] = (drawn1, Normal tt)
    /\ render_v2 true data targets width height [] = (drawn2, Normal tt)
    /\ map (fun b => (bar_series b, fst (pdata (bar_datum b)))) (bars drawn1)
       = list_prod (categories data) (bucketKeys data)
    /\ map (fun b => (bar_series b, fst (pdata (bar_datum b)))) (bars drawn2)
       = list_prod (categories data) (bucketKeys data).
Proof.
intros Hne.
destruct (yScale_v1_spec data Hne height) as [ms [Hy1 _]].
destruct (maxDataValue_spec data Hne) as [ms' [Hm2 _]].
assert (Hy2 : yScale_v2 data targets height
              = Normal (yScale (Math_max ms' (maxTargetValue targets)) height)).
{ unfold yScale_v2, maxValue. now rewrite Hm2. }
assert (Hpairs : forall ys,
  map (fun b => (bar_series b, fst (pdata (bar_datum b))))
      (bars (flat_map (rects (xScale data width) ys height) (stackedData data)))
  = list_prod (categories data) (bucketKeys data)).
{ intros ys. rewrite bars_rects, stackedData_spec. apply stack_from_pairs. }
do 2 eexists.
split; [apply render_v1_normal, Hy1 |].
split; [apply render_v2_normal, Hy2 |].
split.
- rewrite !bars_app, bars_categoryGroups, bars_legend. simpl.
  rewrite app_nil_r. apply Hpairs.
- rewrite !bars_app, bars_categoryGroups, bars_legend, bars_targetLabels. simpl.
  rewrite app_nil_r. apply Hpairs.
Qed.

Lemma one_rect_per_pair_witness :
  sampleData <> []
  /\ exists drawn1 drawn2,
       render_v1 true sampleData (num 800) (num 400) [] = (drawn1, Normal tt)
       /\ render_v2 true sampleData sampleTargets (num 800) (num 400) []
          = (drawn2, Normal tt)
       /\ map (fun b => (bar_series b, fst (pdata (bar_datum b)))) (bars drawn1)
          = list_prod (categories sampleData) (bucketKeys sampleData)
       /\ map (fun b => (bar_series b, fst (pdata (bar_datum b)))) (bars drawn2)
          = list_prod (categories sampleData) (bucketKeys sampleData).
Proof.
assert (Hne : sampleData <> []) by discriminate.
split; [exact Hne |].
exact (one_rect_per_pair sampleData sampleTargets (num 800) (num 400) Hne).
Defined.

(** ** Colours and legend *)

Lemma index_of_nth (l : list string) (i : nat) (c : string) :
  NoDup l -> nth_error l i = Some c -> index_of c l = Some i.
Proof.
intros Hnd. revert i. induction Hnd as [|x l Hx Hnd IH]; intros i; destruct i; simpl;
  try discriminate.
- intros [= ->]. now rewrite String.eqb_refl.
- intros H. destruct (String.eqb x c) eqn:E.
  + apply String.eqb_eq in E. subst. apply nth_error_In in H. contradiction.
  + now rewrite (IH i H).
Qed.

Lemma index_of_none (l : list string) (k : string) :
  ~ In k l -> index_of k l = None.
Proof.
induction l as [|x l IH]; simpl; [reflexivity |].
intros H. destruct (String.eqb x k) eqn:E.
- apply String.eqb_eq in E. tauto.
- rewrite IH; tauto.
Qed.

Lemma schemeCategory10_NoDup : NoDup schemeCategory10.
Proof.
unfold schemeCategory10.
repeat (constructor; [simpl; intuition discriminate |]). constructor.
Qed.

Lemma colorScale_nth (cats : list string) (i : nat) (c : string) :
  NoDup cats -> nth_error cats i = Some c ->
  colorScale cats c = nth (i mod 10) schemeCategory10 "".
Proof.
intros Hnd Hi. unfold colorScale.
now rewrite (js_set_id cats Hnd), (index_of_nth cats i c Hnd Hi).
Qed.

(** X4. The category at position [i] of the category order takes the colour at
    position [i mod 10] of the palette, so the colours repeat with period 10;
    with at most ten categories no other category has the same colour. *)
Theorem category_colours (data : list DataPoint) (i : nat) (c : string) :
  nth_error (categories data) i = Some c ->
  colorScale (categories data) c = nth (i mod 10) schemeCategory10 ""
  /\ (forall j c', nth_error (categories data) j = Some c' ->
        (j mod 10 = i mod 10 -> colorScale (categories data) c' = colorScale (categories data) c)
        /\ ((List.length (categories data) <= 10)%nat ->
            colorScale (categories data) c' = colorScale (categories data) c -> c' = c)).
Proof.
intros Hi. pose proof (js_set_NoDup (map category data)) as Hnd.
fold (categories data) in Hnd.
split; [now apply colorScale_nth |].
intros j c' Hj.
rewrite (colorScale_nth _ i c Hnd Hi), (colorScale_nth _ j c' Hnd Hj).
split; [now intros -> |].
intros Hlen Hcol.
assert (Li : (i < List.length (categories data))%nat) by (apply nth_error_Some; congruence).
assert (Lj : (j < List.length (categories data))%nat) by (apply nth_error_Some; congruence).
rewrite !Nat.mod_small in Hcol by lia.
assert (E : j = i).
{ apply (proj1 (NoDup_nth schemeCategory10 "") schemeCategory10_NoDup);
    simpl; try lia. exact Hcol. }
subst j. congruence.
Qed.

Lemma category_colours_witness :
  nth_error (categories sampleData) 1 = Some "B"
  /\ colorScale (categories sampleData) "B" = nth (1 mod 10) schemeCategory10 ""
  /\ (forall j c', nth_error (categories sampleData) j = Some c' ->
        (j mod 10 = 1 mod 10 ->
         colorScale (categories sampleData) c' = colorScale (categories sampleData) "B")
        /\ ((List.length (categories sampleData) <= 10)%nat ->
            colorScale (categories sampleData) c' = colorScale (categories sampleData) "B" ->
            c' = "B")).
Proof.
assert (H : nth_error (categories sampleData) 1 = Some "B") by reflexivity.
split; [exact H |].
exact (category_colours sampleData 1 "B" H).
Defined.

Lemma flat_map_map_nil {A B C} (h : B -> list C) (f : A -> B) (l : list A) :
  (forall a, h (f a) = []) -> flat_map h (map f l) = [].
Proof.
intros H. induction l as [|a l IH]; simpl; [reflexivity |]. now rewrite H, IH.
Qed.

Lemma flat_map_map_single {A B C} (h : B -> list C) (f : A -> B) (g : A -> C)
    (l : list A) :
  (forall a, h (f a) = [g a]) -> flat_map h (map f l) = map g l.
Proof.
intros H. induction l as [|a l IH]; simpl; [reflexivity |]. now rewrite H, IH.
Qed.

Lemma drawnLegend_legend (cats : list string) (width : number) :
  drawnLegend (legend cats width) = map (fun c => (c, colorScale cats c)) cats.
Proof.
unfold drawnLegend, legend.
rewrite (flat_map_map_single _ _ (fun '(i, c) => (c, colorScale cats c)))
  by (intros [i c]; reflexivity).
now apply map_indexed.
Qed.

Lemma drawnFills_groups (data : list DataPoint) :
  drawnFills (categoryGroups (categories data) (stackedData data))
  = map (fun c => (c, colorScale (categories data) c)) (categories data).
Proof.
unfold drawnFills, categoryGroups.
rewrite (flat_map_map_single _ _ (fun s => (key s, colorScale (categories data) (key s))))
  by reflexivity.
rewrite <- (map_map key (fun c => (c, colorScale (categories data) c))).
now rewrite stackedData_spec, stack_from_keys.
Qed.

(** X5. For a non-empty record array the legend of both revisions lists the
    categories in the order of the category groups, and the swatch of every
    entry has the fill of the group of its category. *)
Theorem legend_matches_groups (data : list DataPoint) (targets : list QuarterlyTarget)
    (width height : number) :
  data <> [] ->
  exists drawn1 drawn2,
    render_v1 true data width height [] = (drawn1, Normal tt)
    /\ render_v2 true data targets width height [] = (drawn2, Normal tt)
    /\ map fst (drawnLegend drawn1) = categories data
    /\ drawnLegend drawn1 = drawnFills drawn1
    /\ map fst (drawnLegend drawn2) = categories data
    /\ drawnLegend drawn2 = drawnFills drawn2.
Proof.
intros Hne.
destruct (yScale_v1_spec data Hne height) as [ms [Hy1 _]].
destruct (maxDataValue_spec data Hne) as [ms' [Hm2 _]].
assert (Hy2 : yScale_v2 data targets height
              = Normal (yScale (Math_max ms' (maxTargetValue targets)) height)).
{ unfold yScale_v2, maxValue. now rewrite Hm2. }
assert (Hrect : forall xs ys, drawnLegend (flat_map (rects xs ys height) (stackedData data)) = []
                              /\ drawnFills (flat_map (rects xs ys height) (stackedData data)) = []).
{ intros xs ys. unfold drawnLegend, drawnFills.
  induction (stackedData data) as [|s l [IH1 IH2]]; [split; reflexivity |].
  simpl. rewrite !flat_map_app, IH1, IH2, !app_nil_r. unfold rects.
  split; apply flat_map_map_nil; intros [i d]; reflexivity. }
assert (Hlab : forall xs ys, drawnLegend (targetLabels xs ys targets) = []
                             /\ drawnFills (targetLabels xs ys targets) = []).
{ intros xs ys. split; apply flat_map_map_nil; reflexivity. }
assert (Hgl : drawnLegend (categoryGroups (categories data) (stackedData data)) = []).
{ apply flat_map_map_nil. reflexivity. }
assert (Hlf : drawnFills (legend (categories data) width) = []).
{ apply flat_map_map_nil. intros [i c]. reflexivity. }
assert (Hfst : map fst (map (fun c => (c, colorScale (categories data) c)) (categories data))
               = categories data).
{ rewrite map_map. apply map_id. }
do 2 eexists.
split; [apply render_v1_normal, Hy1 |].
split; [apply render_v2_normal, Hy2 |].
assert (L1 : forall ys,
  drawnLegend (preamble width height
               ++ categoryGroups (categories data) (stackedData data)
               ++ flat_map (rects (xScale data width) ys height) (stackedData data)
               ++ axes (xScale data width) ys height
               ++ legend (categories data) width)
  = map (fun c => (c, colorScale (categories data) c)) (categories data)).
{ intros ys. unfold drawnLegend at 1. rewrite !flat_map_app.
  fold (drawnLegend (categoryGroups (categories data) (stackedData data))).
  fold (drawnLegend (flat_map (rects (xScale data width) ys height) (stackedData data))).
  fold (drawnLegend (legend (categories data) width)).
  rewrite Hgl, (proj1 (Hrect _ _)), drawnLegend_legend. reflexivity. }
assert (F1 : forall ys,
  drawnFills (preamble width height
              ++ categoryGroups (categories data) (stackedData data)
              ++ flat_map (rects (xScale data width) ys height) (stackedData data)
              ++ axes (xScale data width) ys height
              ++ legend (categories data) width)
  = map (fun c => (c, colorScale (categories data) c)) (categories data)).
{ intros ys. unfold drawnFills at 1. rewrite !flat_map_app.
  fold (drawnFills (categoryGroups (categories data) (stackedData data))).
  fold (drawnFills (flat_map (rects (xScale data width) ys height) (stackedData data))).
  fold (drawnFills (legend (categories data) width)).
  rewrite Hlf, (proj2 (Hrect _ _)), drawnFills_groups. simpl. now rewrite app_nil_r. }
assert (L2 : forall ys,
  drawnLegend (preamble width height
               ++ categoryGroups (categories data) (stackedData data)
               ++ [TargetLine (map (targetPoint (xScale data width) ys) targets) 750]
               ++ targetLabels (xScale data width) ys targets
               ++ flat_map (rects (xScale data width) ys height) (stackedData data)
               ++ axes (xScale data width) ys height
               ++ legend (categories data) width)
  = map (fun c => (c, colorScale (categories data) c)) (categories data)).
{ intros ys. unfold drawnLegend at 1. rewrite !flat_map_app.
  fold (drawnLegend (categoryGroups (categories data) (stackedData data))).
  fold (drawnLegend (targetLabels (xScale data width) ys targets)).
  fold (drawnLegend (flat_map (rects (xScale data width) ys height) (stackedData data))).
  fold (drawnLegend (legend (categories data) width)).
  rewrite Hgl, (proj1 (Hrect _ _)), (proj1 (Hlab _ _)), drawnLegend_legend. reflexivity. }
assert (F2 : forall ys,
  drawnFills (preamble width height
              ++ categoryGroups (categories data) (stackedData data)
              ++ [TargetLine (map (targetPoint (xScale data width) ys) targets) 750]
              ++ targetLabels (xScale data width) ys targets
              ++ flat_map (rects (xScale data width) ys height) (stackedData data)
              ++ axes (xScale data width) ys height
              ++ legend (categories data) width)
  = map (fun c => (c, colorScale (categories data) c)) (categories data)).
{ intros ys. unfold drawnFills at 1. rewrite !flat_map_app.
  fold (drawnFills (categoryGroups (categories data) (stackedData data))).
  fold (drawnFills (targetLabels (xScale data width) ys targets)).
  fold (drawnFills (flat_map (rects (xScale data width) ys height) (stackedData data))).
  fold (drawnFills (legend (categories data) width)).
  rewrite Hlf, (proj2 (Hrect _ _)), (proj2 (Hlab _ _)), drawnFills_groups.
  simpl. now rewrite app_nil_r. }
rewrite L1, F1, L2, F2, Hfst. repeat split.
Qed.

Lemma legend_matches_groups_witness :
  sampleData <> []
  /\ exists drawn1 drawn2,
       render_v1 true sampleData (num 800) (num 400) [] = (drawn1, Normal tt)
       /\ render_v2 true sampleData sampleTargets (num 800) (num 400) []
          = (drawn2, Normal tt)
       /\ map fst (drawnLegend drawn1) = categories sampleData
       /\ drawnLegend drawn1 = drawnFills drawn1
       /\ map fst (drawnLegend drawn2) = categories sampleData
       /\ drawnLegend drawn2 = drawnFills drawn2.
Proof.
assert (Hne : sampleData <> []) by discriminate.
split; [exact Hne |].
exact (legend_matches_groups sampleData sampleTargets (num 800) (num 400) Hne).
Defined.

(** ** Order on the numbers *)

Lemma Qc_lt_neq (m : Qc) : 0 < m -> m <> 0.
Proof. intros H E. rewrite E in H. now apply (Qclt_not_le _ _ H), Qcle_refl. Qed.

Lemma Qc_div_le (x y m : Qc) : 0 < m -> x <= y -> x / m <= y / m.
Proof.
intros Hm Hxy. apply (Qcmult_lt_0_le_reg_r _ _ m Hm).
replace (x / m * m) with x by (field; now apply Qc_lt_neq).
replace (y / m * m) with y by (field; now apply Qc_lt_neq).
exact Hxy.
Qed.

Lemma Qc_mul_le_l (h a b : Qc) : 0 <= h -> a <= b -> h * a <= h * b.
Proof.
intros Hh Hab. rewrite (Qcmult_comm h a), (Qcmult_comm h b).
now apply Qcmult_le_compat_r.
Qed.

Lemma Qc_sub_le (a b c : Qc) : a <= b -> c - b <= c - a.
Proof.
intros H. unfold Qcminus. apply Qcplus_le_compat; [apply Qcle_refl |].
now apply Qcopp_le_compat.
Qed.

Lemma Qc_le_0_sub (a b : Qc) : a <= b -> 0 <= b - a.
Proof.
intros H. replace 0 with (a - a) by ring. unfold Qcminus.
apply Qcplus_le_compat; [assumption | apply Qcle_refl].
Qed.

Lemma scale_linear_pos (m h x : Qc) :
  0 < m -> scale_linear (mkLinear (0, m) (h, 0)) x = h * (1 - x / m).
Proof.
intros Hm. pose proof (Qc_lt_neq m Hm) as Hne.
unfold scale_linear, bimap. cbn [lin_domain lin_range].
assert (E1 : Qcltb m 0 = false) by (apply Qcltb_ge; now apply Qclt_le_weak).
rewrite E1. unfold interpolateNumber, normalize.
assert (E2 : Qc_eq_bool (m - 0) 0 = false).
{ unfold Qc_eq_bool. destruct (Qc_eq_dec (m - 0) 0) as [E|]; [| reflexivity].
  exfalso. apply Hne. rewrite <- E. ring. }
rewrite E2. field. assumption.
Qed.

Lemma num_le (a b : Z) : (a <= b)%Z -> num a <= num b.
Proof.
intros H. unfold num, Qcle.
change (Qred (inject_Z a) <= Qred (inject_Z b))%Q.
rewrite !Qred_correct. now rewrite <- Zle_Qle.
Qed.

Lemma num_plus (a b : Z) : num (a + b) = num a + num b.
Proof.
unfold num. apply Qc_is_canon.
change (Qred (inject_Z (a + b)) == Qred (Qred (inject_Z a) + Qred (inject_Z b)))%Q.
rewrite !Qred_correct. now rewrite inject_Z_plus.
Qed.

Lemma sum_nonneg {A} (f : A -> number) (l : list A) :
  (forall a, In a l -> 0 <= f a) -> 0 <= sum (map f l).
Proof.
induction l as [|a l IH]; intros H; simpl; [apply Qcle_refl |].
replace 0 with (0 + 0) by ring.
apply Qcplus_le_compat; [apply H; now left | apply IH; intros; apply H; now right].
Qed.

Lemma Qc_le_add_l (a b : number) : 0 <= a -> b <= a + b.
Proof.
intros H. replace b with (0 + b) at 1 by ring.
apply Qcplus_le_compat; [assumption | apply Qcle_refl].
Qed.

(** ** Stacks of non-negative values *)

Section NonNegative.

Variable data : list DataPoint.
Hypothesis values_nonneg : forall d, In d data -> 0 <= value d.

Lemma stack_value_nonneg (b : Bucket) (c : string) :
  In b (d3_group data) -> 0 <= stack_value b c.
Proof.
intros Hb. apply d3_group_In in Hb. destruct Hb as [_ Hrecs]. unfold stack_value.
destruct (find (fun item => String.eqb (category item) c) (snd b)) as [r|] eqn:E;
  [| apply Qcle_refl].
apply find_some in E. destruct E as [Hr _]. rewrite Hrecs in Hr.
apply bucket_records_In in Hr. cbn [option_map]. rewrite or_zero_some.
apply values_nonneg. tauto.
Qed.

Lemma stack_from_bounds (g : Bucket -> number) (keys : list string)
    (s : Series) (p : SeriesPoint) :
  In s (stack_from (d3_group data) g keys) -> In p (points s) ->
  In (pdata p) (d3_group data)
  /\ g (pdata p) <= p0 p /\ p0 p <= p1 p
  /\ p1 p <= sum (map (stack_value (pdata p)) keys) + g (pdata p).
Proof.
revert g. induction keys as [|c keys IH]; intros g; simpl; [tauto |].
intros [<- | Hs] Hp.
- simpl in Hp. apply in_map_iff in Hp. destruct Hp as [b [<- Hb]]. cbn [pdata p0 p1].
  pose proof (stack_value_nonneg b c Hb) as Hc.
  split; [exact Hb |]. split; [apply Qcle_refl |]. split; [now apply Qc_le_add_l |].
  replace (stack_value b c + sum (map (stack_value b) keys) + g b)
    with (sum (map (stack_value b) keys) + (stack_value b c + g b)) by ring.
  apply Qc_le_add_l, sum_nonneg. intros c' _. now apply stack_value_nonneg.
- destruct (IH _ Hs Hp) as [Hb [H0 [H01 H1]]].
  split; [exact Hb |]. split; [| split; [exact H01 |]].
  + eapply Qcle_trans; [| exact H0]. apply Qc_le_add_l. now apply stack_value_nonneg.
  + replace (stack_value (pdata p) c + sum (map (stack_value (pdata p)) keys) + g (pdata p))
      with (sum (map (stack_value (pdata p)) keys) + (stack_value (pdata p) c + g (pdata p)))
      by ring.
    exact H1.
Qed.

End NonNegative.

Lemma stack_from_last_tops (groups : list Bucket) (g : Bucket -> number)
    (keys : list string) (s : Series) :
  js_last (stack_from groups g keys) = Some s ->
  map p1 (points s) = map (fun b => sum (map (stack_value b) keys) + g b) groups.
Proof.
revert g. induction keys as [|c keys IH]; intros g; [discriminate |].
destruct keys as [|c' keys].
- simpl. unfold js_last. simpl. intros [= <-]. simpl. rewrite map_map.
  apply map_ext. intros b. simpl. ring.
- change (stack_from groups g (c :: c' :: keys))
    with (mkSeries c (map (fun b => mkPoint (g b) (stack_value b c + g b) b) groups)
          :: stack_from groups (fun b => stack_value b c + g b) (c' :: keys)).
  remember (stack_from groups (fun b => stack_value b c + g b) (c' :: keys)) as tl eqn:Etl.
  destruct tl as [|s' tl]; [discriminate |].
  rewrite js_last_cons, Etl. intros H. rewrite (IH _ H).
  apply map_ext. intros b. simpl. ring.
Qed.

(** X6. When no value is negative, every interval of the stack goes upward from
    a non-negative baseline and ends at or below the maximum that the
    chart takes from the stacks. *)
Theorem nonneg_stack_bounds (data : list DataPoint) :
  data <> [] ->
  (forall d, In d data -> 0 <= value d) ->
  exists ms,
    maxDataValue data = Normal ms
    /\ forall s p, In s (stackedData data) -> In p (points s) ->
                   0 <= p0 p /\ p0 p <= p1 p /\ p1 p <= ms.
Proof.
intros Hne Hpos.
destruct (maxDataValue_spec data Hne) as [ms [Hm [_ Hub]]].
exists ms. split; [exact Hm |].
intros s p Hs Hp. rewrite stackedData_spec in Hs.
destruct (stack_from_bounds data Hpos _ _ s p Hs Hp) as [Hb [H0 [H01 H1]]].
split; [exact H0 |]. split; [exact H01 |].
eapply Qcle_trans; [exact H1 |]. apply Hub.
unfold stack_tops. destruct (last_series data Hne) as [sl [Hl _]]. rewrite Hl.
rewrite stackedData_spec in Hl. rewrite (stack_from_last_tops _ _ _ _ Hl).
apply in_map_iff. exists (pdata p). split; [reflexivity | exact Hb].
Qed.

Lemma nonneg_stack_bounds_witness :
  sampleData <> []
  /\ (forall d, In d sampleData -> 0 <= value d)
  /\ exists ms,
       maxDataValue sampleData = Normal ms
       /\ forall s p, In s (stackedData sampleData) -> In p (points s) ->
                      0 <= p0 p /\ p0 p <= p1 p /\ p1 p <= ms.
Proof.
assert (Hne : sampleData <> []) by discriminate.
assert (Hpos : forall d, In d sampleData -> 0 <= value d).
{ intros d Hd. simpl in Hd.
  repeat (destruct Hd as [<- | Hd]; [vm_compute; discriminate |]). contradiction. }
split; [exact Hne |]. split; [exact Hpos |].
exact (nonneg_stack_bounds sampleData Hne Hpos).
Defined.

(** ** The value scale on a non-negative domain *)

Lemma Qc_half_bounds (h : number) : 0 <= h -> 0 <= h * frac 1 2 /\ h * frac 1 2 <= h.
Proof.
intros Hh.
assert (H0 : 0 <= frac 1 2) by (vm_compute; discriminate).
assert (H1 : frac 1 2 <= 1) by (vm_compute; discriminate).
split.
- replace 0 with (h * 0) by ring. now apply Qc_mul_le_l.
- replace h with (h * 1) at 2 by ring. now apply Qc_mul_le_l.
Qed.

Lemma scale_linear_antitone (m h x y : number) :
  0 <= m -> 0 <= h -> x <= y ->
  scale_linear (mkLinear (0, m) (h, 0)) y <= scale_linear (mkLinear (0, m) (h, 0)) x.
Proof.
intros Hm Hh Hxy. destruct (Qcle_lt_or_eq _ _ Hm) as [Hpos | <-].
- rewrite !scale_linear_pos by assumption.
  apply Qc_mul_le_l; [assumption |]. apply Qc_sub_le. now apply Qc_div_le.
- rewrite !scale_linear_degenerate. apply Qcle_refl.
Qed.

Lemma scale_linear_inside (m h x : number) :
  0 <= h -> 0 <= x -> x <= m ->
  0 <= scale_linear (mkLinear (0, m) (h, 0)) x
  /\ scale_linear (mkLinear (0, m) (h, 0)) x <= h.
Proof.
intros Hh Hx Hxm.
assert (Hm : 0 <= m) by (eapply Qcle_trans; eassumption).
destruct (Qcle_lt_or_eq _ _ Hm) as [Hpos | <-].
- rewrite scale_linear_pos by assumption.
  assert (T0 : 0 <= x / m).
  { replace 0 with (0 / m) by (field; now apply Qc_lt_neq). now apply Qc_div_le. }
  assert (T1 : x / m <= 1).
  { replace 1 with (m / m) by (field; now apply Qc_lt_neq). now apply Qc_div_le. }
  split.
  + replace 0 with (h * 0) by ring. apply Qc_mul_le_l; [assumption |].
    now apply Qc_le_0_sub.
  + replace h with (h * 1) at 2 by ring. apply Qc_mul_le_l; [assumption |].
    replace 1 with (1 - 0) at 2 by ring. now apply Qc_sub_le.
- rewrite scale_linear_degenerate. now apply Qc_half_bounds.
Qed.

(** X7. The value scale is inverted: over a domain [0, M] with M positive and a
    plot that is not of negative height, a larger value lies at a smaller
    or equal pixel ordinate, 0 lies at innerHeight and M at 0, and the values
    between 0 and M lie between 0 and innerHeight. *)
Theorem value_scale_inverted (M height x y : number) :
  0 < M -> 0 <= innerHeight height -> x <= y ->
  scale_linear (yScale M height) y <= scale_linear (yScale M height) x
  /\ scale_linear (yScale M height) 0 = innerHeight height
  /\ scale_linear (yScale M height) M = 0
  /\ (0 <= x -> y <= M ->
      0 <= scale_linear (yScale M height) y
      /\ scale_linear (yScale M height) x <= innerHeight height).
Proof.
intros HM Hh Hxy. unfold yScale.
pose proof (Qclt_le_weak _ _ HM) as HM'.
split; [now apply scale_linear_antitone |].
destruct (scale_linear_ends M (innerHeight height) (Qc_lt_neq M HM)) as [E0 E1].
split; [exact E0 |]. split; [exact E1 |].
intros Hx Hy. split.
- apply scale_linear_inside; try assumption. eapply Qcle_trans; eassumption.
- apply scale_linear_inside; try assumption. eapply Qcle_trans; eassumption.
Qed.

Lemma value_scale_inverted_witness :
  0 < num 50 /\ 0 <= innerHeight (num 400) /\ num 20 <= num 50
  /\ scale_linear (yScale (num 50) (num 400)) (num 50)
     <= scale_linear (yScale (num 50) (num 400)) (num 20)
  /\ scale_linear (yScale (num 50) (num 400)) 0 = innerHeight (num 400)
  /\ scale_linear (yScale (num 50) (num 400)) (num 50) = 0
  /\ (0 <= num 20 -> num 50 <= num 50 ->
      0 <= scale_linear (yScale (num 50) (num 400)) (num 50)
      /\ scale_linear (yScale (num 50) (num 400)) (num 20) <= innerHeight (num 400)).
Proof.
assert (H1 : 0 < num 50) by reflexivity.
assert (H2 : 0 <= innerHeight (num 400)) by (vm_compute; discriminate).
assert (H3 : num 20 <= num 50) by (vm_compute; discriminate).
split; [exact H1 |]. split; [exact H2 |]. split; [exact H3 |].
exact (value_scale_inverted (num 50) (num 400) (num 20) (num 50) H1 H2 H3).
Defined.

(** Pixel heights are proportional to values: over a domain [0, M] with M
    not 0, the distance between the ordinates of two values is their
    difference times innerHeight / M. *)
Lemma scale_linear_difference (m h a b : number) :
  m <> 0 ->
  scale_linear (mkLinear (0, m) (h, 0)) a - scale_linear (mkLinear (0, m) (h, 0)) b
  = h * (b - a) / m.
Proof.
intros Hm. unfold scale_linear, bimap. cbn [lin_domain lin_range].
assert (H1 : Qc_eq_bool (m - 0) 0 = false).
{ unfold Qc_eq_bool. destruct (Qc_eq_dec (m - 0) 0) as [E|]; [| reflexivity].
  exfalso. apply Hm. rewrite <- E. ring. }
assert (H2 : Qc_eq_bool (0 - m) 0 = false).
{ unfold Qc_eq_bool. destruct (Qc_eq_dec (0 - m) 0) as [E|]; [| reflexivity].
  exfalso. apply Hm. transitivity (- (0 - m)); [ring | rewrite E; ring]. }
assert (H3 : - m <> 0).
{ intros E. apply Hm. transitivity (- - m); [ring | rewrite E; ring]. }
destruct (Qcltb m 0); unfold interpolateNumber, normalize; rewrite ?H1, ?H2;
  field; auto.
Qed.

(** ** Geometry of the rectangles *)

Lemma yScale_v1_maxDataValue (data : list DataPoint) (height m : number) :
  maxDataValue data = Normal m -> yScale_v1 data height = Normal (yScale m height).
Proof.
unfold maxDataValue, yScale_v1.
destruct (d3_max_iter (option_map points (js_last (stackedData data))) p1);
  [intros [= <-]; reflexivity | discriminate].
Qed.

Lemma yScale_v2_maxDataValue (data : list DataPoint) (targets : list QuarterlyTarget)
    (height m : number) :
  maxDataValue data = Normal m ->
  maxValue data targets = Normal (Math_max m (maxTargetValue targets))
  /\ yScale_v2 data targets height
     = Normal (yScale (Math_max m (maxTargetValue targets)) height).
Proof.
intros H. unfold yScale_v2, maxValue. rewrite H. split; reflexivity.
Qed.

(** X8. Pixel heights are proportional to values: when the maximum of the value
    domain is not 0, the final height of every rectangle is the height of
    its interval times innerHeight over that maximum. A larger maximum
    (a raised target) shrinks every rectangle in the same proportion. *)
Theorem bar_heights_proportional (data : list DataPoint)
    (targets : list QuarterlyTarget) (width height : number) :
  data <> [] ->
  exists drawn1 drawn2 M1 M2,
    render_v1 true data width height [] = (drawn1, Normal tt)
    /\ render_v2 true data targets width height [] = (drawn2, Normal tt)
    /\ maxDataValue data = Normal M1
    /\ maxValue data targets = Normal M2
    /\ (M1 <> 0 -> forall b, In b (bars drawn1) ->
          bar_height b = innerHeight height * (p1 (bar_datum b) - p0 (bar_datum b)) / M1)
    /\ (M2 <> 0 -> forall b, In b (bars drawn2) ->
          bar_height b = innerHeight height * (p1 (bar_datum b) - p0 (bar_datum b)) / M2).
Proof.
intros Hne. destruct (maxDataValue_spec data Hne) as [ms [Hm _]].
destruct (yScale_v2_maxDataValue data targets height ms Hm) as [HM2 Hy2].
pose proof (yScale_v1_maxDataValue data height ms Hm) as Hy1.
do 2 eexists. exists ms, (Math_max ms (maxTargetValue targets)).
split; [apply render_v1_normal, Hy1 |].
split; [apply render_v2_normal, Hy2 |].
split; [exact Hm |]. split; [exact HM2 |].
split.
- intros HM b Hb. apply drawn_v1_bars, rects_In in Hb.
  destruct Hb as (s & d & _ & _ & _ & Hd & _ & _ & Hh). rewrite Hh, Hd.
  now apply scale_linear_difference.
- intros HM b Hb. apply drawn_v2_bars, rects_In in Hb.
  destruct Hb as (s & d & _ & _ & _ & Hd & _ & _ & Hh). rewrite Hh, Hd.
  now apply scale_linear_difference.
Qed.

Lemma bar_heights_proportional_witness :
  sampleData <> []
  /\ exists drawn1 drawn2 M1 M2,
       render_v1 true sampleData (num 800) (num 400) [] = (drawn1, Normal tt)
       /\ render_v2 true sampleData sampleTargets (num 800) (num 400) []
          = (drawn2, Normal tt)
       /\ maxDataValue sampleData = Normal M1
       /\ maxValue sampleData sampleTargets = Normal M2
       /\ (M1 <> 0 -> forall b, In b (bars drawn1) ->
             bar_height b
             = innerHeight (num 400) * (p1 (bar_datum b) - p0 (bar_datum b)) / M1)
       /\ (M2 <> 0 -> forall b, In b (bars drawn2) ->
             bar_height b
             = innerHeight (num 400) * (p1 (bar_datum b) - p0 (bar_datum b)) / M2).
Proof.
assert (Hne : sampleData <> []) by discriminate.
split; [exact Hne |].
exact (bar_heights_proportional sampleData sampleTargets (num 800) (num 400) Hne).
Defined.


Lemma drawnTargetPoints_v2 (data : list DataPoint) (targets : list QuarterlyTarget)
    (width height : number) (ys : LinearScale) :
  drawnTargetPoints (preamble width height
                     ++ categoryGroups (categories data) (stackedData data)
                     ++ [TargetLine (map (targetPoint (xScale data width) ys) targets) 750]
                     ++ targetLabels (xScale data width) ys targets
                     ++ flat_map (rects (xScale data width) ys height) (stackedData data)
                     ++ axes (xScale data width) ys height
                     ++ legend (categories data) width)
  = map (targetPoint (xScale data width) ys) targets.
Proof.
unfold drawnTargetPoints. rewrite !flat_map_app.
assert (H1 : forall cats stacked,
          flat_map (fun c => match c with TargetLine pts _ => pts | _ => [] end)
                   (categoryGroups cats stacked) = []).
{ intros. apply flat_map_map_nil. reflexivity. }
assert (H2 : forall xs,
          flat_map (fun c => match c with TargetLine pts _ => pts | _ => [] end)
                   (targetLabels xs ys targets) = []).
{ intros. apply flat_map_map_nil. reflexivity. }
assert (H3 : forall xs stacked,
          flat_map (fun c => match c with TargetLine pts _ => pts | _ => [] end)
                   (flat_map (rects xs ys height) stacked) = []).
{ intros xs stacked. induction stacked as [|s l IH]; [reflexivity |].
  simpl. rewrite flat_map_app, IH, app_nil_r. unfold rects.
  apply flat_map_map_nil. intros [i d]. reflexivity. }
assert (H4 : forall cats,
          flat_map (fun c => match c with TargetLine pts _ => pts | _ => [] end)
                   (legend cats width) = []).
{ intros. apply flat_map_map_nil. intros [i c]. reflexivity. }
rewrite H1, H2, H3, H4. simpl. now rewrite !app_nil_r.
Qed.





(** ** Rectangles of one bucket tile the stack *)




(** ** The band scale *)

Lemma Math_max_r (a b : number) : a <= b -> Math_max a b = b.
Proof.
intros H. unfold Math_max. destruct (Qcltb a b) eqn:E; [reflexivity |].
apply Qcltb_ge in E. now apply Qcle_antisym.
Qed.

Lemma Qc_half_double (x : number) : (x + x) * frac 1 2 = x.
Proof.
assert (H : (1 + 1) * frac 1 2 = 1) by (apply Qc_is_canon; reflexivity).
transitivity (x * ((1 + 1) * frac 1 2)); [ring | rewrite H; ring].
Qed.

Lemma Qc_div_nonneg (x m : number) : 0 < m -> 0 <= x -> 0 <= x / m.
Proof.
intros Hm Hx. pose proof (Qc_div_le 0 x m Hm Hx) as H.
replace (0 / m) with 0 in H by (field; now apply Qc_lt_neq). exact H.
Qed.

Lemma nth_error_seq_lt (s n i : nat) :
  (i < n)%nat -> nth_error (seq s n) i = Some (s + i)%nat.
Proof.
revert s i. induction n as [|n IH]; intros s i H; [lia |].
destruct i as [|i]; simpl; [f_equal; lia |].
rewrite IH by lia. f_equal. lia.
Qed.

Lemma of_nat_le (i j : nat) : (i <= j)%nat -> of_nat i <= of_nat j.
Proof. intros H. apply num_le. lia. Qed.

Lemma of_nat_S (i : nat) : of_nat (S i) = of_nat i + 1.
Proof.
unfold of_nat. rewrite Nat2Z.inj_succ, <- Z.add_1_r, num_plus. reflexivity.
Qed.

Section Band.

Variables (data : list DataPoint) (width : number).
Hypothesis width_ok : 0 <= innerWidth width.
Hypothesis data_nonempty : data <> [].

Lemma band_domain_keys : band_domain (xScale data width) = bucketKeys data.
Proof. apply js_set_id. rewrite bucketKeys_js_set. apply js_set_NoDup. Qed.

Lemma band_not_reversed : band_reverse (xScale data width) = false.
Proof. unfold band_reverse. simpl. now apply Qcltb_ge. Qed.

Lemma band_count_pos : 1 <= of_nat (List.length (bucketKeys data)).
Proof.
unfold of_nat. change 1 with (num 1). apply num_le.
pose proof (bucketKeys_nonempty data data_nonempty).
destruct (bucketKeys data); [congruence | simpl; lia].
Qed.

Lemma band_count_pad : 1 <= of_nat (List.length (bucketKeys data)) + frac 1 10.
Proof.
replace 1 with (1 + 0) by ring.
apply Qcplus_le_compat; [apply band_count_pos | vm_compute; discriminate].
Qed.

Lemma band_divisor_value :
  band_divisor (xScale data width) = of_nat (List.length (bucketKeys data)) + frac 1 10.
Proof.
unfold band_divisor. rewrite band_domain_keys. cbn [band_padding xScale].
assert (E : frac 1 10 * num 2 = frac 1 10 + frac 1 10)
  by (apply Qc_is_canon; reflexivity).
rewrite E.
replace (of_nat (List.length (bucketKeys data)) - frac 1 10 + (frac 1 10 + frac 1 10))
  with (of_nat (List.length (bucketKeys data)) + frac 1 10) by ring.
apply Math_max_r, band_count_pad.
Qed.

Lemma band_step_total :
  band_step (xScale data width) * (of_nat (List.length (bucketKeys data)) + frac 1 10)
  = innerWidth width.
Proof.
unfold band_step. rewrite band_divisor_value.
unfold band_stop, band_start0. rewrite band_not_reversed.
cbn [band_range xScale fst snd].
field. intros E. pose proof band_count_pad as H. rewrite E in H. now apply H.
Qed.

Lemma band_start_value :
  band_start (xScale data width) = band_step (xScale data width) * frac 1 10.
Proof.
unfold band_start. rewrite band_domain_keys.
unfold band_stop, band_start0. rewrite band_not_reversed.
cbn [band_range band_padding xScale fst snd].
change (mkBand (js_set (bucketKeys data)) (0, innerWidth width) (frac 1 10))
  with (xScale data width).
rewrite <- band_step_total.
replace (band_step (xScale data width)
         * (of_nat (List.length (bucketKeys data)) + frac 1 10) - 0
         - band_step (xScale data width)
           * (of_nat (List.length (bucketKeys data)) - frac 1 10))
  with (band_step (xScale data width) * frac 1 10
        + band_step (xScale data width) * frac 1 10) by ring.
rewrite Qc_half_double. ring.
Qed.

Lemma band_step_nonneg : 0 <= band_step (xScale data width).
Proof.
unfold band_step. rewrite band_divisor_value.
unfold band_stop, band_start0. rewrite band_not_reversed.
cbn [band_range xScale fst snd].
apply Qc_div_nonneg.
- apply Qclt_le_trans with 1; [reflexivity | apply band_count_pad].
- now replace (innerWidth width - 0) with (innerWidth width) by ring.
Qed.

Lemma scale_band_at (i : nat) (k : string) :
  nth_error (bucketKeys data) i = Some k ->
  scale_band (xScale data width) k
  = Some (band_step (xScale data width) * (of_nat i + frac 1 10)).
Proof.
intros Hi. unfold scale_band. rewrite band_domain_keys.
assert (Hnd : NoDup (bucketKeys data)) by (rewrite bucketKeys_js_set; apply js_set_NoDup).
rewrite (index_of_nth _ i k Hnd Hi).
assert (Li : (i < List.length (bucketKeys data))%nat) by (apply nth_error_Some; congruence).
unfold band_values. rewrite band_not_reversed, band_domain_keys.
rewrite length_map, length_seq, Nat.mod_small by assumption.
rewrite nth_error_map, nth_error_seq_lt by assumption. simpl.
rewrite band_start_value. f_equal. ring.
Qed.

Lemma bandwidth_value :
  bandwidth (xScale data width) = band_step (xScale data width) * frac 9 10.
Proof.
unfold bandwidth. cbn [band_padding xScale].
assert (E : 1 - frac 1 10 = frac 9 10) by (apply Qc_is_canon; reflexivity).
now rewrite E.
Qed.

Lemma band_right_edge (i : nat) :
  band_step (xScale data width) * (of_nat i + frac 1 10) + bandwidth (xScale data width)
  = band_step (xScale data width) * of_nat (S i).
Proof.
rewrite bandwidth_value, of_nat_S.
assert (E : frac 1 10 + frac 9 10 = 1) by (apply Qc_is_canon; reflexivity).
transitivity (band_step (xScale data width) * (of_nat i + (frac 1 10 + frac 9 10)));
  [ring | rewrite E; ring].
Qed.

End Band.

(** X11. The bands split a plot that is not of negative width evenly: with n
    bucket keys and the padding of one tenth, the step is
    innerWidth / (n + 1/10), the band of the key at position i starts at
    step * (i + 1/10) and is 9/10 of a step wide; every band lies inside
    [0, innerWidth], and a band starts at or after the end of every band
    before it. *)
Theorem band_layout (data : list DataPoint) (width : number) (i : nat) (k : string) :
  0 <= innerWidth width ->
  nth_error (bucketKeys data) i = Some k ->
  scale_band (xScale data width) k
  = Some (band_step (xScale data width) * (of_nat i + frac 1 10))
  /\ band_step (xScale data width) * (of_nat (List.length (bucketKeys data)) + frac 1 10)
     = innerWidth width
  /\ bandwidth (xScale data width) = band_step (xScale data width) * frac 9 10
  /\ 0 <= band_step (xScale data width) * (of_nat i + frac 1 10)
  /\ band_step (xScale data width) * (of_nat i + frac 1 10) + bandwidth (xScale data width)
     <= innerWidth width
  /\ (forall j k', (i < j)%nat -> nth_error (bucketKeys data) j = Some k' ->
        exists x', scale_band (xScale data width) k' = Some x'
                   /\ band_step (xScale data width) * (of_nat i + frac 1 10)
                      + bandwidth (xScale data width) <= x').
Proof.
intros Hw Hi.
assert (Hne : data <> []).
{ intros ->. destruct i; discriminate. }
assert (Li : (i < List.length (bucketKeys data))%nat) by (apply nth_error_Some; congruence).
pose proof (band_step_nonneg data width Hw Hne) as Hstep.
assert (Hpad : 0 <= frac 1 10) by (vm_compute; discriminate).
split; [exact (scale_band_at data width Hw Hne i k Hi) |].
split; [now apply band_step_total |].
split; [now apply bandwidth_value |].
split; [| split].
- replace 0 with (band_step (xScale data width) * 0) by ring.
  apply Qc_mul_le_l; [assumption |].
  replace 0 with (0 + 0) by ring. apply Qcplus_le_compat; [| assumption].
  change 0 with (of_nat 0). apply of_nat_le. lia.
- rewrite band_right_edge by assumption.
  replace (innerWidth width)
    with (band_step (xScale data width)
          * (of_nat (List.length (bucketKeys data)) + frac 1 10))
    by (now apply band_step_total).
  apply Qc_mul_le_l; [assumption |].
  apply Qcle_trans with (of_nat (List.length (bucketKeys data))).
  + apply of_nat_le. lia.
  + replace (of_nat (List.length (bucketKeys data)))
      with (of_nat (List.length (bucketKeys data)) + 0) at 1 by ring.
    apply Qcplus_le_compat; [apply Qcle_refl | assumption].
- intros j k' Hij Hj. eexists.
  split; [exact (scale_band_at data width Hw Hne j k' Hj) |].
  rewrite band_right_edge by assumption.
  apply Qc_mul_le_l; [assumption |].
  apply Qcle_trans with (of_nat j).
  + apply of_nat_le. lia.
  + replace (of_nat j) with (of_nat j + 0) at 1 by ring.
    apply Qcplus_le_compat; [apply Qcle_refl | assumption].
Qed.

Lemma band_layout_witness :
  0 <= innerWidth (num 800)
  /\ nth_error (bucketKeys sampleData) 1 = Some "2024-02"
  /\ scale_band (xScale sampleData (num 800)) "2024-02"
     = Some (band_step (xScale sampleData (num 800)) * (of_nat 1 + frac 1 10))
  /\ band_step (xScale sampleData (num 800))
     * (of_nat (List.length (bucketKeys sampleData)) + frac 1 10)
     = innerWidth (num 800)
  /\ bandwidth (xScale sampleData (num 800))
     = band_step (xScale sampleData (num 800)) * frac 9 10
  /\ 0 <= band_step (xScale sampleData (num 800)) * (of_nat 1 + frac 1 10)
  /\ band_step (xScale sampleData (num 800)) * (of_nat 1 + frac 1 10)
     + bandwidth (xScale sampleData (num 800)) <= innerWidth (num 800)
  /\ (forall j k', (1 < j)%nat -> nth_error (bucketKeys sampleData) j = Some k' ->
        exists x', scale_band (xScale sampleData (num 800)) k' = Some x'
                   /\ band_step (xScale sampleData (num 800)) * (of_nat 1 + frac 1 10)
                      + bandwidth (xScale sampleData (num 800)) <= x').
Proof.
assert (Hw : 0 <= innerWidth (num 800)) by (vm_compute; discriminate).
assert (Hi : nth_error (bucketKeys sampleData) 1 = Some "2024-02") by reflexivity.
split; [exact Hw |]. split; [exact Hi |].
exact (band_layout sampleData (num 800) 1 "2024-02" Hw Hi).
Defined.

(** X12. A key that the band scale does not know gets no position, and the
    overlay falls back to 0: a target whose date is not a bucket key is
    drawn half a band to the right of the left edge of the plot. *)
Theorem unknown_date_fallback (data : list DataPoint) (width : number)
    (ys : LinearScale) (t : QuarterlyTarget) :
  ~ In (target_date t) (bucketKeys data) ->
  scale_band (xScale data width) (target_date t) = None
  /\ fst (targetPoint (xScale data width) ys t) = bandwidth (xScale data width) / num 2.
Proof.
intros Hk.
assert (E : scale_band (xScale data width) (target_date t) = None).
{ unfold scale_band. rewrite band_domain_keys. now rewrite index_of_none. }
split; [exact E |]. unfold targetPoint. cbn [fst]. rewrite E.
unfold or_zero. ring.
Qed.

Lemma unknown_date_fallback_witness :
  ~ In "2024-04" (bucketKeys sampleData)
  /\ scale_band (xScale sampleData (num 800)) "2024-04" = None
  /\ fst (targetPoint (xScale sampleData (num 800)) (yScale (num 70) (num 400))
                      (mkTarget "2024-04" (num 65)))
     = bandwidth (xScale sampleData (num 800)) / num 2.
Proof.
assert (H : ~ In "2024-04" (bucketKeys sampleData)).
{ vm_compute. intuition discriminate. }
split; [exact H |].
exact (unknown_date_fallback sampleData (num 800) (yScale (num 70) (num 400))
         (mkTarget "2024-04" (num 65)) H).
Defined.

Lemma rects_In_x (data : list DataPoint) (width height : number) (ys : LinearScale)
    (stacked : list Series) (b : Bar) :
  In (Rect b) (flat_map (rects (xScale data width) ys height) stacked) ->
  exists s, In s stacked /\ In (bar_datum b) (points s)
            /\ bar_x b = or_zero (scale_band (xScale data width) (fst (pdata (bar_datum b))))
            /\ bar_width b = bandwidth (xScale data width).
Proof.
intros H. apply in_flat_map in H. destruct H as [s [Hs H]].
unfold rects in H. apply in_map_iff in H. destruct H as [[i d] [E Hd]].
apply indexed_In in Hd. injection E as <-. exists s. repeat split; assumption.
Qed.

(** X13. When the plot is not of negative width, every rectangle of both
    revisions stands on the band of the bucket of its datum: its left edge
    is the start of that band and its width is the bandwidth; in the
    overlay revision a target whose date is a bucket key is drawn at the
    centre of the band of that key. *)
Theorem marks_on_bands (data : list DataPoint) (targets : list QuarterlyTarget)
    (width height : number) :
  data <> [] ->
  0 <= innerWidth width ->
  exists drawn1 drawn2,
    render_v1 true data width height [] = (drawn1, Normal tt)
    /\ render_v2 true data targets width height [] = (drawn2, Normal tt)
    /\ (forall drawn b, drawn = drawn1 \/ drawn = drawn2 -> In b (bars drawn) ->
          exists i, nth_error (bucketKeys data) i = Some (fst (pdata (bar_datum b)))
                    /\ bar_x b = band_step (xScale data width) * (of_nat i + frac 1 10)
                    /\ bar_width b = bandwidth (xScale data width))
    /\ (forall t i ys, nth_error (bucketKeys data) i = Some (target_date t) ->
          fst (targetPoint (xScale data width) ys t)
          = band_step (xScale data width) * (of_nat i + frac 1 10)
            + bandwidth (xScale data width) / num 2).
Proof.
intros Hne Hw.
destruct (maxDataValue_spec data Hne) as [ms [Hm _]].
destruct (yScale_v2_maxDataValue data targets height ms Hm) as [_ Hy2].
pose proof (yScale_v1_maxDataValue data height ms Hm) as Hy1.
assert (Hcore : forall ys b,
  In (Rect b) (flat_map (rects (xScale data width) ys height) (stackedData data)) ->
  exists i, nth_error (bucketKeys data) i = Some (fst (pdata (bar_datum b)))
            /\ bar_x b = band_step (xScale data width) * (of_nat i + frac 1 10)
            /\ bar_width b = bandwidth (xScale data width)).
{ intros ys b Hb. apply rects_In_x in Hb. destruct Hb as (s & Hs & Hd & Hx & Hwd).
  rewrite stackedData_spec in Hs. apply stack_from_data in Hs.
  assert (Hk : In (fst (pdata (bar_datum b))) (bucketKeys data)).
  { unfold bucketKeys. rewrite <- Hs, map_map.
    apply (in_map (fun p => fst (pdata p))), Hd. }
  apply In_nth_error in Hk. destruct Hk as [i Hi]. exists i.
  split; [exact Hi |]. split; [| exact Hwd].
  now rewrite Hx, (scale_band_at data width Hw Hne i _ Hi), or_zero_some. }
do 2 eexists.
split; [apply render_v1_normal, Hy1 |].
split; [apply render_v2_normal, Hy2 |].
split.
- intros drawn b [-> | ->] Hb.
  + apply drawn_v1_bars in Hb. exact (Hcore _ b Hb).
  + apply drawn_v2_bars in Hb. exact (Hcore _ b Hb).
- intros t i ys Hi. unfold targetPoint. cbn [fst].
  now rewrite (scale_band_at data width Hw Hne i _ Hi), or_zero_some.
Qed.

Lemma marks_on_bands_witness :
  sampleData <> []
  /\ 0 <= innerWidth (num 800)
  /\ exists drawn1 drawn2,
       render_v1 true sampleData (num 800) (num 400) [] = (drawn1, Normal tt)
       /\ render_v2 true sampleData sampleTargets (num 800) (num 400) []
          = (drawn2, Normal tt)
       /\ (forall drawn b, drawn = drawn1 \/ drawn = drawn2 -> In b (bars drawn) ->
             exists i,
               nth_error (bucketKeys sampleData) i = Some (fst (pdata (bar_datum b)))
               /\ bar_x b
                  = band_step (xScale sampleData (num 800)) * (of_nat i + frac 1 10)
               /\ bar_width b = bandwidth (xScale sampleData (num 800)))
       /\ (forall t i ys,
             nth_error (bucketKeys sampleData) i = Some (target_date t) ->
             fst (targetPoint (xScale sampleData (num 800)) ys t)
             = band_step (xScale sampleData (num 800)) * (of_nat i + frac 1 10)
               + bandwidth (xScale sampleData (num 800)) / num 2).
Proof.
assert (Hne : sampleData <> []) by discriminate.
assert (Hw : 0 <= innerWidth (num 800)) by (vm_compute; discriminate).
split; [exact Hne |]. split; [exact Hw |].
exact (marks_on_bands sampleData sampleTargets (num 800) (num 400) Hne Hw).
Defined.

(** ** The Randomize button *)

Lemma randomize_dates (random : nat -> number) (data : list DataPoint) :
  map date (randomize random data) = map date data.
Proof.
unfold randomize. rewrite map_map. apply map_indexed. reflexivity.
Qed.

Lemma randomize_categories (random : nat -> number) (data : list DataPoint) :
  map category (randomize random data) = map category data.
Proof.
unfold randomize. rewrite map_map. apply map_indexed. reflexivity.
Qed.

(** X14. Randomizing replaces values only: the records keep their number, their
    dates and their categories, so the category order, the bucket order and
    the order of the series are those of the chart before the click, and no
    (bucket, category) pair becomes or stops being repeated. *)
Theorem randomize_keeps_layout (random : nat -> number) (data : list DataPoint) :
  List.length (randomize random data) = List.length data
  /\ map date (randomize random data) = map date data
  /\ map category (randomize random data) = map category data
  /\ categories (randomize random data) = categories data
  /\ bucketKeys (randomize random data) = bucketKeys data
  /\ map key (stackedData (randomize random data)) = map key (stackedData data)
  /\ (unique_pairs (randomize random data) <-> unique_pairs data).
Proof.
pose proof (randomize_dates random data) as Hd.
pose proof (randomize_categories random data) as Hc.
assert (Hcat : categories (randomize random data) = categories data).
{ unfold categories. now rewrite Hc. }
split.
- rewrite <- (length_map date (randomize random data)), Hd. apply length_map.
- split; [exact Hd |]. split; [exact Hc |]. split; [exact Hcat |].
  split; [now rewrite !bucketKeys_js_set, Hd |].
  split.
  + now rewrite !stackedData_spec, !stack_from_keys.
  + unfold unique_pairs.
    assert (E : map (fun d => (date d, category d)) (randomize random data)
                = map (fun d => (date d, category d)) data).
    { unfold randomize. rewrite map_map. apply map_indexed. reflexivity. }
    now rewrite E.
Qed.

Lemma Math_floor_range (r : number) :
  0 <= r -> r < 1 ->
  exists z, Math_floor (r * num 50) + num 10 = num z /\ (10 <= z <= 59)%Z.
Proof.
intros H0 H1. exists (Qfloor (r * num 50)%Qc + 10)%Z.
split; [unfold Math_floor; now rewrite num_plus |].
assert (L : 0 <= r * num 50).
{ replace 0 with (0 * num 50) by ring.
  apply Qcmult_le_compat_r; [assumption | vm_compute; discriminate]. }
assert (U : r * num 50 < num 50).
{ replace (num 50) with (1 * num 50) at 2 by ring.
  apply Qcmult_lt_compat_r; [reflexivity | assumption]. }
assert (Lz : (0 <= Qfloor (r * num 50)%Qc)%Z).
{ change 0%Z with (Qfloor 0). apply Qfloor_resp_le. exact L. }
assert (Uz : (Qfloor (r * num 50)%Qc < 50)%Z).
{ rewrite Zlt_Qlt. eapply Qle_lt_trans; [apply Qfloor_le |]. exact U. }
lia.
Qed.

(** X15. With draws in [0, 1), every randomized value is a whole number between
    10 and 59. *)
Theorem randomize_values (random : nat -> number) (data : list DataPoint) :
  (forall i, 0 <= random i /\ random i < 1) ->
  forall d, In d (randomize random data) ->
            exists z, value d = num z /\ (10 <= z <= 59)%Z.
Proof.
intros Hr d Hd. unfold randomize in Hd. apply in_map_iff in Hd.
destruct Hd as [[i d0] [<- _]]. cbn [value].
destruct (Hr i) as [H0 H1]. now apply Math_floor_range.
Qed.

Lemma randomize_values_witness :
  (forall i : nat, 0 <= frac 1 2 /\ frac 1 2 < 1)
  /\ forall d, In d (randomize (fun _ => frac 1 2) sampleData) ->
               exists z, value d = num z /\ (10 <= z <= 59)%Z.
Proof.
assert (H : forall i : nat, 0 <= frac 1 2 /\ frac 1 2 < 1).
{ intros _. split; [vm_compute; discriminate | reflexivity]. }
split; [exact H |].
exact (randomize_values (fun _ => frac 1 2) sampleData H).
Defined.

(** ** Editing a target *)

(** X16. Editing the target at a position of the array replaces the value at
    that position and nothing else: the array keeps its length and its
    dates, every other target is unchanged, and a later edit of the same
    position overrides the earlier one. *)
Theorem setTarget_replaces_one (targets : list QuarterlyTarget) (i : nat)
    (t : QuarterlyTarget) (v : number) :
  nth_error targets i = Some t ->
  List.length (setTarget i v targets) = List.length targets
  /\ map target_date (setTarget i v targets) = map target_date targets
  /\ nth_error (setTarget i v targets) i = Some (mkTarget (target_date t) v)
  /\ (forall j, j <> i -> nth_error (setTarget i v targets) j = nth_error targets j)
  /\ (forall v', setTarget i v' (setTarget i v targets) = setTarget i v' targets).
Proof.
revert i. induction targets as [|t0 l IH]; intros i Hi; destruct i as [|i];
  try discriminate.
- injection Hi as ->. simpl. repeat split; try reflexivity.
  intros j Hj. destruct j; [congruence | reflexivity].
- simpl in Hi. destruct (IH i Hi) as (H1 & H2 & H3 & H4 & H5). simpl.
  split; [now rewrite H1 |]. split; [now rewrite H2 |]. split; [exact H3 |].
  split.
  + intros j Hj. destruct j; [reflexivity |]. simpl. apply H4. congruence.
  + intros v'. now rewrite H5.
Qed.

Lemma setTarget_replaces_one_witness :
  nth_error sampleTargets 1 = Some (mkTarget "2024-02" (num 60))
  /\ List.length (setTarget 1 (num 80) sampleTargets) = List.length sampleTargets
  /\ map target_date (setTarget 1 (num 80) sampleTargets) = map target_date sampleTargets
  /\ nth_error (setTarget 1 (num 80) sampleTargets) 1
     = Some (mkTarget (target_date (mkTarget "2024-02" (num 60))) (num 80))
  /\ (forall j, j <> 1%nat ->
        nth_error (setTarget 1 (num 80) sampleTargets) j = nth_error sampleTargets j)
  /\ (forall v', setTarget 1 v' (setTarget 1 (num 80) sampleTargets)
                 = setTarget 1 v' sampleTargets).
Proof.
assert (H : nth_error sampleTargets 1 = Some (mkTarget "2024-02" (num 60)))
  by reflexivity.
split; [exact H |].
exact (setTarget_replaces_one sampleTargets 1 (mkTarget "2024-02" (num 60)) (num 80) H).
Defined.

(** ** Clicks on different legend entries *)

Lemma legend_click_none (c : string) (groups : list GroupNode) :
  filter (fun d => String.eqb (group_key d) c) groups = [] ->
  legend_click c groups = Throw (TypeError "null has no style").
Proof. intros H. unfold legend_click. now rewrite H. Qed.

Lemma legend_click_head (c : string) (groups : list GroupNode)
    (node : GroupNode) (rest : list GroupNode) :
  filter (fun d => String.eqb (group_key d) c) groups = node :: rest ->
  legend_click c groups
  = Normal (map (fun d =>
                   if String.eqb (group_key d) c
                   then mkGroup (group_key d)
                          (Some (if String.eqb (style_opacity node) "1" then "0.2" else "1"))
                   else d)
                groups).
Proof. intros H. unfold legend_click. now rewrite H. Qed.

Lemma filter_toggle_other (c1 c2 : string) (v : option string) (groups : list GroupNode) :
  c1 <> c2 ->
  filter (fun d => String.eqb (group_key d) c2)
         (map (fun d => if String.eqb (group_key d) c1
                        then mkGroup (group_key d) v else d) groups)
  = filter (fun d => String.eqb (group_key d) c2) groups.
Proof.
intros Hne. induction groups as [|d l IH]; simpl; [reflexivity |].
destruct (String.eqb (group_key d) c1) eqn:E1; simpl.
- apply String.eqb_eq in E1.
  assert (E2 : String.eqb (group_key d) c2 = false).
  { apply String.eqb_neq. congruence. }
  now rewrite E2, IH.
- now rewrite IH.
Qed.

Lemma toggle_commute (c1 c2 : string) (v1 v2 : option string) (groups : list GroupNode) :
  c1 <> c2 ->
  map (fun d => if String.eqb (group_key d) c2 then mkGroup (group_key d) v2 else d)
      (map (fun d => if String.eqb (group_key d) c1 then mkGroup (group_key d) v1 else d)
           groups)
  = map (fun d => if String.eqb (group_key d) c1 then mkGroup (group_key d) v1 else d)
        (map (fun d => if String.eqb (group_key d) c2 then mkGroup (group_key d) v2 else d)
             groups).
Proof.
intros Hne. rewrite !map_map. apply map_ext. intros d.
destruct (String.eqb (group_key d) c1) eqn:E1;
  destruct (String.eqb (group_key d) c2) eqn:E2; simpl; rewrite ?E1, ?E2; try reflexivity.
apply String.eqb_eq in E1. apply String.eqb_eq in E2. congruence.
Qed.

Lemma legend_clicks_two (c1 c2 : string) (groups : list GroupNode) :
  c1 <> c2 -> legend_clicks [c1; c2] groups = legend_clicks [c2; c1] groups.
Proof.
intros Hne. assert (Hne' : c2 <> c1) by congruence. simpl.
destruct (filter (fun d => String.eqb (group_key d) c1) groups) as [|n1 r1] eqn:F1;
  destruct (filter (fun d => String.eqb (group_key d) c2) groups) as [|n2 r2] eqn:F2.
- now rewrite (legend_click_none c1 groups F1), (legend_click_none c2 groups F2).
- rewrite (legend_click_none c1 groups F1), (legend_click_head c2 groups n2 r2 F2).
  rewrite legend_click_none; [reflexivity |].
  now rewrite filter_toggle_other.
- rewrite (legend_click_head c1 groups n1 r1 F1), (legend_click_none c2 groups F2).
  rewrite legend_click_none; [reflexivity |].
  now rewrite filter_toggle_other.
- rewrite (legend_click_head c1 groups n1 r1 F1), (legend_click_head c2 groups n2 r2 F2).
  rewrite (legend_click_head c2 _ n2 r2) by (now rewrite filter_toggle_other).
  rewrite (legend_click_head c1 _ n1 r1) by (now rewrite filter_toggle_other).
  f_equal. now apply toggle_commute.
Qed.

(** X17. Legend entries are independent of each other: clicking two entries in
    one order or in the other leaves the category groups in the same state,
    or raises the same exception when one of the categories has no group. *)
Theorem legend_clicks_commute (c1 c2 : string) (groups : list GroupNode) :
  legend_clicks [c1; c2] groups = legend_clicks [c2; c1] groups.
Proof.
destruct (string_dec c1 c2) as [-> | Hne]; [reflexivity | now apply legend_clicks_two].
Qed.

(** ** The value domain of the overlay revision *)

Lemma Math_max_l (a b : number) : b <= a -> Math_max a b = a.
Proof.
intros H. unfold Math_max. destruct (Qcltb a b) eqn:E; [| reflexivity].
apply Qcltb_lt in E. exfalso. exact (Qclt_not_le _ _ E H).
Qed.

Lemma Math_max_cases (a b : number) : Math_max a b = a \/ Math_max a b = b.
Proof. unfold Math_max. destruct (Qcltb a b); auto. Qed.

(** X18. For a non-empty record array the maximum of the value domain of the
    overlay revision is at or above the top of every bucket and every
    target value, and it is one of them (or 0 when there is no target): the
    domain encloses stacks and targets and is no larger than needed. *)
Theorem value_domain_encloses (data : list DataPoint) (targets : list QuarterlyTarget) :
  data <> [] ->
  exists M,
    maxValue data targets = Normal M
    /\ (forall x, In x (stack_tops data) -> x <= M)
    /\ (forall t, In t targets -> target_value t <= M)
    /\ (In M (stack_tops data)
        \/ (exists t, In t targets /\ target_value t = M)
        \/ (targets = [] /\ M = 0)).
Proof.
intros Hne. destruct (maxDataValue_spec data Hne) as [ms [Hm [Hin Hub]]].
destruct (yScale_v2_maxDataValue data targets 0 ms Hm) as [HM _].
exists (Math_max ms (maxTargetValue targets)). split; [exact HM |].
split; [| split].
- intros x Hx. eapply Qcle_trans; [now apply Hub | apply Math_max_ub_l].
- intros t Ht. eapply Qcle_trans; [| apply Math_max_ub_r].
  destruct (maxTargetValue_spec targets) as [[_ Hmt] | [E _]].
  + apply Hmt. now apply in_map.
  + rewrite E in Ht. contradiction.
- destruct (Math_max_cases ms (maxTargetValue targets)) as [-> | ->]; [now left | right].
  destruct (maxTargetValue_spec targets) as [[Hmt _] | [E E0]].
  + left. apply in_map_iff in Hmt. destruct Hmt as [t [Et Ht]]. now exists t.
  + right. now split.
Qed.

Lemma value_domain_encloses_witness :
  sampleData <> []
  /\ exists M,
       maxValue sampleData sampleTargets = Normal M
       /\ (forall x, In x (stack_tops sampleData) -> x <= M)
       /\ (forall t, In t sampleTargets -> target_value t <= M)
       /\ (In M (stack_tops sampleData)
           \/ (exists t, In t sampleTargets /\ target_value t = M)
           \/ (sampleTargets = [] /\ M = 0)).
Proof.
assert (Hne : sampleData <> []) by discriminate.
split; [exact Hne |].
exact (value_domain_encloses sampleData sampleTargets Hne).
Defined.

(** X19. The overlay leaves the rectangles alone unless a target rises above the
    stacks: when the maximum taken from the targets is at most the maximum
    taken from the stacks, the overlay revision draws the rectangles of the
    revision without overlay. *)
Theorem overlay_keeps_bars (data : list DataPoint) (targets : list QuarterlyTarget)
    (width height ms : number) :
  maxDataValue data = Normal ms ->
  maxTargetValue targets <= ms ->
  exists drawn1 drawn2,
    render_v1 true data width height [] = (drawn1, Normal tt)
    /\ render_v2 true data targets width height [] = (drawn2, Normal tt)
    /\ bars drawn2 = bars drawn1.
Proof.
intros Hm Hle.
destruct (yScale_v2_maxDataValue data targets height ms Hm) as [_ Hy2].
pose proof (yScale_v1_maxDataValue data height ms Hm) as Hy1.
rewrite (Math_max_l _ _ Hle) in Hy2.
do 2 eexists.
split; [apply render_v1_normal, Hy1 |].
split; [apply render_v2_normal, Hy2 |].
rewrite !bars_app, !bars_categoryGroups, !bars_legend, bars_targetLabels. reflexivity.
Qed.

Lemma overlay_keeps_bars_witness :
  maxDataValue sampleData = Normal (num 80)
  /\ maxTargetValue sampleTargets <= num 80
  /\ exists drawn1 drawn2,
       render_v1 true sampleData (num 800) (num 400) [] = (drawn1, Normal tt)
       /\ render_v2 true sampleData sampleTargets (num 800) (num 400) []
          = (drawn2, Normal tt)
       /\ bars drawn2 = bars drawn1.
Proof.
assert (Hm : maxDataValue sampleData = Normal (num 80)) by (vm_compute; reflexivity).
assert (Hle : maxTargetValue sampleTargets <= num 80) by (vm_compute; discriminate).
split; [exact Hm |]. split; [exact Hle |].
exact (overlay_keeps_bars sampleData sampleTargets (num 800) (num 400) (num 80) Hm Hle).
Defined.

(** ** Tooltips, labels and the entrance of the rectangles *)

Lemma stack_from_heights (groups : list Bucket) (g : Bucket -> number)
    (keys : list string) (s : Series) (p : SeriesPoint) :
  In s (stack_from groups g keys) -> In p (points s) ->
  p1 p - p0 p = stack_value (pdata p) (key s).
Proof.
revert g. induction keys as [|c keys IH]; intros g; simpl; [tauto |].
intros [<- | Hs] Hp.
- simpl in Hp. apply in_map_iff in Hp. destruct Hp as [b [<- _]]. simpl. ring.
- eapply IH; eassumption.
Qed.

Lemma magnitudes_filter_le (p : DataPoint -> bool) (l : list DataPoint) :
  (fold_right Z.add 0 (map (fun d => Z.abs (Qfloor (value d))) (filter p l))
   <= fold_right Z.add 0 (map (fun d => Z.abs (Qfloor (value d))) l))%Z.
Proof.
induction l as [|d l IH]; simpl; [lia |].
destruct (p d); simpl; lia.
Qed.

Lemma magnitude_member_le (r : DataPoint) (l : list DataPoint) :
  In r l ->
  (Z.abs (Qfloor (value r))
   <= fold_right Z.add 0 (map (fun d => Z.abs (Qfloor (value d))) l))%Z.
Proof.
induction l as [|d l IH]; simpl; [tauto |].
assert (H0 : (0 <= fold_right Z.add 0 (map (fun d => Z.abs (Qfloor (value d))) l))%Z).
{ clear. induction l; simpl; lia. }
intros [-> | H]; [lia | specialize (IH H); lia].
Qed.

Lemma stack_value_whole (data : list DataPoint) (b : Bucket) (c : string) :
  exact_in_doubles data -> In b (d3_group data) ->
  exists z, stack_value b c = num z /\ (Z.abs z <= 2 ^ 53)%Z.
Proof.
intros [Hwhole Hbound] Hb. apply d3_group_In in Hb. destruct Hb as [_ Hrecs].
unfold stack_value.
destruct (find (fun item => String.eqb (category item) c) (snd b)) as [r|] eqn:E.
- apply find_some in E. destruct E as [Hr _]. rewrite Hrecs in Hr.
  cbn [option_map]. rewrite or_zero_some.
  exists (Qfloor (value r)). split.
  + apply Hwhole. apply bucket_records_In in Hr. tauto.
  + eapply Z.le_trans; [apply (magnitude_member_le r _ Hr) | apply Hbound].
- exists 0%Z. split; [reflexivity | vm_compute; discriminate].
Qed.

(** X20. For a record array whose values are whole numbers with, in every
    bucket, magnitudes that add up to at most 2^53 (so that the additions
    of the stack and the subtraction of the handler are exact on doubles
    too), the number in the tooltip of a rectangle is the value that the
    accessor gives to the bucket of the rectangle and the category of its
    series: the value of the first record of that category in the bucket,
    0 when there is none; it is a whole number of magnitude at most 2^53.
    The tooltip is anchored 10 to the left of and 10 above the pointer. *)
Theorem tooltip_value (data : list DataPoint) (targets : list QuarterlyTarget)
    (width height offsetX offsetY : number) :
  data <> [] ->
  exact_in_doubles data ->
  exists drawn1 drawn2,
    render_v1 true data width height [] = (drawn1, Normal tt)
    /\ render_v2 true data targets width height [] = (drawn2, Normal tt)
    /\ forall drawn b, drawn = drawn1 \/ drawn = drawn2 -> In b (bars drawn) ->
         tip_text (mouseover offsetX offsetY (bar_datum b))
         = [Str (fst (pdata (bar_datum b))); Lit ": ";
            Num (stack_value (pdata (bar_datum b)) (bar_series b))]
         /\ (exists z, stack_value (pdata (bar_datum b)) (bar_series b) = num z
                       /\ (Z.abs z <= 2 ^ 53)%Z)
         /\ tip_x (mouseover offsetX offsetY (bar_datum b)) = offsetX - num 10
         /\ tip_y (mouseover offsetX offsetY (bar_datum b)) = offsetY - num 10.
Proof.
intros Hne Hex.
destruct (maxDataValue_spec data Hne) as [ms [Hm _]].
destruct (yScale_v2_maxDataValue data targets height ms Hm) as [_ Hy2].
pose proof (yScale_v1_maxDataValue data height ms Hm) as Hy1.
assert (Hcore : forall ys b,
  In (Rect b) (flat_map (rects (xScale data width) ys height) (stackedData data)) ->
  p1 (bar_datum b) - p0 (bar_datum b) = stack_value (pdata (bar_datum b)) (bar_series b)
  /\ In (pdata (bar_datum b)) (d3_group data)).
{ intros ys b Hb. apply rects_In in Hb.
  destruct Hb as (s & d & Hs & Hd & Hk & Hdat & _). rewrite Hk, Hdat.
  rewrite stackedData_spec in Hs. split.
  - eapply stack_from_heights; eassumption.
  - apply stack_from_data in Hs. rewrite <- Hs. now apply in_map. }
do 2 eexists.
split; [apply render_v1_normal, Hy1 |].
split; [apply render_v2_normal, Hy2 |].
intros drawn b [-> | ->] Hb.
- apply drawn_v1_bars in Hb. destruct (Hcore _ b Hb) as [Hh Hin].
  unfold mouseover. cbn [tip_text tip_x tip_y]. rewrite Hh.
  split; [reflexivity |]. split; [now apply (stack_value_whole data) |]. now split.
- apply drawn_v2_bars in Hb. destruct (Hcore _ b Hb) as [Hh Hin].
  unfold mouseover. cbn [tip_text tip_x tip_y]. rewrite Hh.
  split; [reflexivity |]. split; [now apply (stack_value_whole data) |]. now split.
Qed.

Lemma tooltip_value_witness :
  sampleData <> []
  /\ exact_in_doubles sampleData
  /\ exists drawn1 drawn2,
       render_v1 true sampleData (num 800) (num 400) [] = (drawn1, Normal tt)
       /\ render_v2 true sampleData sampleTargets (num 800) (num 400) []
          = (drawn2, Normal tt)
       /\ forall drawn b, drawn = drawn1 \/ drawn = drawn2 -> In b (bars drawn) ->
            tip_text (mouseover (num 100) (num 50) (bar_datum b))
            = [Str (fst (pdata (bar_datum b))); Lit ": ";
               Num (stack_value (pdata (bar_datum b)) (bar_series b))]
            /\ (exists z, stack_value (pdata (bar_datum b)) (bar_series b) = num z
                          /\ (Z.abs z <= 2 ^ 53)%Z)
            /\ tip_x (mouseover (num 100) (num 50) (bar_datum b)) = num 100 - num 10
            /\ tip_y (mouseover (num 100) (num 50) (bar_datum b)) = num 50 - num 10.
Proof.
assert (Hne : sampleData <> []) by discriminate.
assert (Hex : exact_in_doubles sampleData).
{ split.
  - intros d Hd. simpl in Hd.
    repeat (destruct Hd as [<- | Hd]; [reflexivity |]). contradiction.
  - intros k. unfold bucket_records.
    eapply Z.le_trans; [apply magnitudes_filter_le |]. vm_compute. discriminate. }
split; [exact Hne |]. split; [exact Hex |].
exact (tooltip_value sampleData sampleTargets (num 800) (num 400) (num 100) (num 50)
         Hne Hex).
Defined.

Lemma drawnTargetLabels_v2 (data : list DataPoint) (targets : list QuarterlyTarget)
    (width height : number) (ys : LinearScale) :
  drawnTargetLabels (preamble width height
                     ++ categoryGroups (categories data) (stackedData data)
                     ++ [TargetLine (map (targetPoint (xScale data width) ys) targets) 750]
                     ++ targetLabels (xScale data width) ys targets
                     ++ flat_map (rects (xScale data width) ys height) (stackedData data)
                     ++ axes (xScale data width) ys height
                     ++ legend (categories data) width)
  = map (fun t => (fst (targetPoint (xScale data width) ys t),
                   snd (targetPoint (xScale data width) ys t) - num 5,
                   [Lit "Target: "; Num (target_value t)]))
        targets.
Proof.
unfold drawnTargetLabels. rewrite !flat_map_app.
assert (H1 : forall cats stacked,
          flat_map (fun c => match c with TargetLabel x y text => [(x, y, text)] | _ => [] end)
                   (categoryGroups cats stacked) = []).
{ intros. apply flat_map_map_nil. reflexivity. }
assert (H3 : forall xs stacked,
          flat_map (fun c => match c with TargetLabel x y text => [(x, y, text)] | _ => [] end)
                   (flat_map (rects xs ys height) stacked) = []).
{ intros xs stacked. induction stacked as [|s l IH]; [reflexivity |].
  simpl. rewrite flat_map_app, IH, app_nil_r. unfold rects.
  apply flat_map_map_nil. intros [i d]. reflexivity. }
assert (H4 : forall cats,
          flat_map (fun c => match c with TargetLabel x y text => [(x, y, text)] | _ => [] end)
                   (legend cats width) = []).
{ intros. apply flat_map_map_nil. intros [i c]. reflexivity. }
rewrite H1, H3, H4. simpl. rewrite !app_nil_r.
unfold targetLabels. apply flat_map_map_single. reflexivity.
Qed.

Lemma map_combine_self {A B C} (f : A -> B) (h : B * A -> C) (l : list A) :
  map h (combine (map f l) l) = map (fun a => h (f a, a)) l.
Proof.
induction l as [|a l IH]; simpl; [reflexivity | now rewrite IH].
Qed.

(** X21. For a non-empty record array the overlay has one line point and one
    label per target, in the order of the target array; every label sits
    at the abscissa of its point, 5 above it, and shows the target value
    as it is. *)
Theorem target_labels_follow_line (data : list DataPoint)
    (targets : list QuarterlyTarget) (width height : number) :
  data <> [] ->
  exists drawn ys,
    render_v2 true data targets width height [] = (drawn, Normal tt)
    /\ yScale_v2 data targets height = Normal ys
    /\ drawnTargetPoints drawn
       = map (fun t => (or_zero (scale_band (xScale data width) (target_date t))
                        + bandwidth (xScale data width) / num 2,
                        scale_linear ys (target_value t)))
             targets
    /\ drawnTargetLabels drawn
       = map (fun '(pt, t) => (fst pt, snd pt - num 5, [Lit "Target: "; Num (target_value t)]))
             (combine (drawnTargetPoints drawn) targets).
Proof.
intros Hne.
destruct (maxDataValue_spec data Hne) as [ms [Hm _]].
destruct (yScale_v2_maxDataValue data targets height ms Hm) as [_ Hy2].
do 2 eexists.
split; [apply render_v2_normal, Hy2 |].
split; [exact Hy2 |].
rewrite drawnTargetPoints_v2, drawnTargetLabels_v2.
split; [reflexivity |].
now rewrite map_combine_self.
Qed.

Lemma target_labels_follow_line_witness :
  sampleData <> []
  /\ exists drawn ys,
       render_v2 true sampleData sampleTargets (num 800) (num 400) [] = (drawn, Normal tt)
       /\ yScale_v2 sampleData sampleTargets (num 400) = Normal ys
       /\ drawnTargetPoints drawn
          = map (fun t => (or_zero (scale_band (xScale sampleData (num 800)) (target_date t))
                           + bandwidth (xScale sampleData (num 800)) / num 2,
                           scale_linear ys (target_value t)))
                sampleTargets
       /\ drawnTargetLabels drawn
          = map (fun '(pt, t) =>
                   (fst pt, snd pt - num 5, [Lit "Target: "; Num (target_value t)]))
                (combine (drawnTargetPoints drawn) sampleTargets).
Proof.
assert (Hne : sampleData <> []) by discriminate.
split; [exact Hne |].
exact (target_labels_follow_line sampleData sampleTargets (num 800) (num 400) Hne).
Defined.

Lemma indexed_nth {A} (l : list A) (n i : nat) (a : A) :
  In (i, a) (indexed n l) -> (n <= i)%nat /\ nth_error l (i - n) = Some a.
Proof.
revert n. induction l as [|x l IH]; intros n; simpl; [tauto |].
intros [E | H].
- injection E as -> ->. rewrite Nat.sub_diag. split; [lia | reflexivity].
- destruct (IH _ H) as [L E]. split; [lia |].
  replace (i - n)%nat with (S (i - S n)) by lia. exact E.
Qed.

(** X22. Every rectangle of both revisions enters with height 0 on the bottom
    line of the plot and takes 750 time units to reach its place; its
    transition is delayed by 50 time units times the position of its
    bucket in the bucket order. *)
Theorem entrance_animation (data : list DataPoint) (targets : list QuarterlyTarget)
    (width height : number) :
  data <> [] ->
  exists drawn1 drawn2,
    render_v1 true data width height [] = (drawn1, Normal tt)
    /\ render_v2 true data targets width height [] = (drawn2, Normal tt)
    /\ forall drawn b, drawn = drawn1 \/ drawn = drawn2 -> In b (bars drawn) ->
         bar_enter_y b = innerHeight height
         /\ bar_enter_height b = 0
         /\ bar_duration b = 750%Z
         /\ exists i, nth_error (bucketKeys data) i = Some (fst (pdata (bar_datum b)))
                      /\ bar_delay b = (Z.of_nat i * 50)%Z.
Proof.
intros Hne.
destruct (maxDataValue_spec data Hne) as [ms [Hm _]].
destruct (yScale_v2_maxDataValue data targets height ms Hm) as [_ Hy2].
pose proof (yScale_v1_maxDataValue data height ms Hm) as Hy1.
assert (Hcore : forall ys b,
  In (Rect b) (flat_map (rects (xScale data width) ys height) (stackedData data)) ->
  bar_enter_y b = innerHeight height
  /\ bar_enter_height b = 0
  /\ bar_duration b = 750%Z
  /\ exists i, nth_error (bucketKeys data) i = Some (fst (pdata (bar_datum b)))
               /\ bar_delay b = (Z.of_nat i * 50)%Z).
{ intros ys b Hb. apply in_flat_map in Hb. destruct Hb as [s [Hs Hb]].
  unfold rects in Hb. apply in_map_iff in Hb. destruct Hb as [[i d] [E Hd]].
  injection E as <-. cbn [bar_enter_y bar_enter_height bar_duration bar_delay bar_datum].
  repeat split. exists i. split; [| reflexivity].
  apply indexed_nth in Hd. destruct Hd as [_ Hd]. rewrite Nat.sub_0_r in Hd.
  rewrite stackedData_spec in Hs. apply stack_from_data in Hs.
  unfold bucketKeys. rewrite <- Hs, map_map.
  now rewrite nth_error_map, Hd. }
do 2 eexists.
split; [apply render_v1_normal, Hy1 |].
split; [apply render_v2_normal, Hy2 |].
intros drawn b [-> | ->] Hb.
- apply drawn_v1_bars in Hb. exact (Hcore _ b Hb).
- apply drawn_v2_bars in Hb. exact (Hcore _ b Hb).
Qed.

Lemma entrance_animation_witness :
  sampleData <> []
  /\ exists drawn1 drawn2,
       render_v1 true sampleData (num 800) (num 400) [] = (drawn1, Normal tt)
       /\ render_v2 true sampleData sampleTargets (num 800) (num 400) []
          = (drawn2, Normal tt)
       /\ forall drawn b, drawn = drawn1 \/ drawn = drawn2 -> In b (bars drawn) ->
            bar_enter_y b = innerHeight (num 400)
            /\ bar_enter_height b = 0
            /\ bar_duration b = 750%Z
            /\ exists i,
                 nth_error (bucketKeys sampleData) i = Some (fst (pdata (bar_datum b)))
                 /\ bar_delay b = (Z.of_nat i * 50)%Z.
Proof.
assert (Hne : sampleData <> []) by discriminate.
split; [exact Hne |].
exact (entrance_animation sampleData sampleTargets (num 800) (num 400) Hne).
Defined.

(** ** Randomize, then render *)

Lemma sum_ge_member {A} (f : A -> number) (l : list A) (a : A) :
  (forall x, In x l -> 0 <= f x) -> In a l -> f a <= sum (map f l).
Proof.
induction l as [|x l IH]; intros Hpos Hin; [contradiction |].
simpl. destruct Hin as [-> | Hin].
- replace (f a) with (f a + 0) at 1 by ring.
  apply Qcplus_le_compat; [apply Qcle_refl |].
  apply sum_nonneg. intros y Hy. apply Hpos. now right.
- apply Qcle_trans with (sum (map f l)).
  + apply IH; [intros y Hy; apply Hpos; now right | assumption].
  + apply Qc_le_add_l. apply Hpos. now left.
Qed.

Lemma maxDataValue_lower_bound (data : list DataPoint) (v : number) :
  data <> [] -> 0 <= v ->
  (forall d, In d data -> v <= value d) ->
  exists ms, maxDataValue data = Normal ms /\ v <= ms.
Proof.
intros Hne Hv Hge.
assert (Hpos : forall d, In d data -> 0 <= value d).
{ intros d Hd. eapply Qcle_trans; [exact Hv | now apply Hge]. }
destruct (maxDataValue_spec data Hne) as [ms [Hm [_ Hub]]].
exists ms. split; [exact Hm |].
destruct data as [|d0 rest] eqn:Edata; [congruence |]. rewrite <- Edata in *.
assert (Hd0 : In d0 data) by (rewrite Edata; now left).
set (b := (date d0, bucket_records data (date d0))).
assert (Hb : In b (d3_group data)).
{ apply bucket_In, bucketKeys_In. exists d0. tauto. }
assert (Hc : In (category d0) (categories data)).
{ apply categories_In. exists d0. tauto. }
assert (Hsv : v <= stack_value b (category d0)).
{ unfold stack_value, b. cbn [snd].
  destruct (find (fun item => String.eqb (category item) (category d0))
                 (bucket_records data (date d0))) as [r|] eqn:E.
  - apply find_some in E. destruct E as [Hr _]. apply bucket_records_In in Hr.
    cbn [option_map]. rewrite or_zero_some. apply Hge. tauto.
  - exfalso.
    assert (Hin : In d0 (bucket_records data (date d0))).
    { apply bucket_records_In. tauto. }
    pose proof (find_none _ _ E d0 Hin) as Hf. cbn beta in Hf.
    rewrite String.eqb_refl in Hf. discriminate. }
apply Qcle_trans with (sum (map (stack_value b) (categories data)) + 0).
- apply Qcle_trans with (stack_value b (category d0)); [exact Hsv |].
  replace (sum (map (stack_value b) (categories data)) + 0)
    with (sum (map (stack_value b) (categories data))) by ring.
  apply sum_ge_member; [| exact Hc].
  intros c _. now apply (stack_value_nonneg data Hpos).
- apply Hub. unfold stack_tops.
  destruct (last_series data Hne) as [sl [Hl _]]. rewrite Hl.
  rewrite stackedData_spec in Hl. rewrite (stack_from_last_tops _ _ _ _ Hl).
  apply in_map_iff. exists b. split; [reflexivity | exact Hb].
Qed.

(** X23. Randomizing a non-empty record array with draws in [0, 1) and rendering
    it never meets the one-point domain: the maximum taken from the stacks
    is at least 10, both revisions complete the pass, and the value scale
    of the revision without overlay sends 0 to the bottom line of the plot
    and the maximum to its top line. *)
Theorem randomize_then_render (random : nat -> number) (data : list DataPoint)
    (targets : list QuarterlyTarget) (width height : number) :
  data <> [] ->
  (forall i, 0 <= random i /\ random i < 1) ->
  exists ms drawn1 drawn2,
    maxDataValue (randomize random data) = Normal ms
    /\ num 10 <= ms
    /\ render_v1 true (randomize random data) width height [] = (drawn1, Normal tt)
    /\ render_v2 true (randomize random data) targets width height []
       = (drawn2, Normal tt)
    /\ yScale_v1 (randomize random data) height = Normal (yScale ms height)
    /\ scale_linear (yScale ms height) 0 = innerHeight height
    /\ scale_linear (yScale ms height) ms = 0.
Proof.
intros Hne Hr.
assert (Hne' : randomize random data <> []).
{ destruct data; [congruence | discriminate]. }
assert (Hge : forall d, In d (randomize random data) -> num 10 <= value d).
{ intros d Hd. unfold randomize in Hd. apply in_map_iff in Hd.
  destruct Hd as [[i d0] [<- _]]. cbn [value].
  destruct (Hr i) as [H0 H1].
  destruct (Math_floor_range (random i) H0 H1) as [z [-> Hz]].
  apply num_le. lia. }
assert (H10 : 0 <= num 10) by (vm_compute; discriminate).
destruct (maxDataValue_lower_bound _ (num 10) Hne' H10 Hge) as [ms [Hm Hms]].
destruct (yScale_v2_maxDataValue _ targets height ms Hm) as [_ Hy2].
pose proof (yScale_v1_maxDataValue _ height ms Hm) as Hy1.
assert (Hnz : ms <> 0).
{ apply Qc_lt_neq. apply Qclt_le_trans with (num 10); [reflexivity | exact Hms]. }
exists ms. do 2 eexists.
split; [exact Hm |]. split; [exact Hms |].
split; [apply render_v1_normal, Hy1 |].
split; [apply render_v2_normal, Hy2 |].
split; [exact Hy1 |].
unfold yScale. now apply scale_linear_ends.
Qed.

Lemma randomize_then_render_witness :
  sampleData <> []
  /\ (forall i : nat, 0 <= frac 1 2 /\ frac 1 2 < 1)
  /\ exists ms drawn1 drawn2,
       maxDataValue (randomize (fun _ => frac 1 2) sampleData) = Normal ms
       /\ num 10 <= ms
       /\ render_v1 true (randomize (fun _ => frac 1 2) sampleData) (num 800) (num 400) []
          = (drawn1, Normal tt)
       /\ render_v2 true (randomize (fun _ => frac 1 2) sampleData) sampleTargets
                    (num 800) (num 400) []
          = (drawn2, Normal tt)
       /\ yScale_v1 (randomize (fun _ => frac 1 2) sampleData) (num 400)
          = Normal (yScale ms (num 400))
       /\ scale_linear (yScale ms (num 400)) 0 = innerHeight (num 400)
       /\ scale_linear (yScale ms (num 400)) ms = 0.
Proof.
assert (Hne : sampleData <> []) by discriminate.
assert (H : forall i : nat, 0 <= frac 1 2 /\ frac 1 2 < 1).
{ intros _. split; [vm_compute; discriminate | reflexivity]. }
split; [exact Hne |]. split; [exact H |].
exact (randomize_then_render (fun _ => frac 1 2) sampleData sampleTargets
         (num 800) (num 400) Hne H).
Defined.
